(** * Voice pipeline of the travel planner

    A shallow embedding of [backend/travel_plans/services/voice_service.py]:
    the rule-based command processor ([VoiceCommandProcessor]), the
    streaming recognition client ([VoiceRecognitionService]) and the audio
    helpers ([AudioFileManager]).

    Conventions of the embedding.
    - A Python [str] is a list of Unicode code points ([text]); literals of
      the source are written as UTF-8 string literals and decoded by [u].
      Dictionary keys and intent labels, which are ASCII identifiers, are
      kept as [string]s.
    - A Python [bytes] value is a list of integers in [0, 255].
    - A Python [float] is the binary64 number it denotes, kept as an exact
      rational ([pyfloat]); conversions round to nearest, ties to even.
    - A call that may raise returns a [pyresult].
    - External collaborators (pydub, the websocket library, the wall clock)
      are arguments of the functions that use them. *)

From Stdlib Require Import ZArith QArith Lia Ascii String DecimalString.
From stdpp Require Import gmap strings list.
From Equations Require Import Equations.

Local Open Scope Z_scope.

(** ** Strings *)

Module Text.

Definition text := list Z.

(** UTF-8 decoding of the bytes of a literal (well-formed input only). *)
Fixpoint utf8_decode (bs : list Z) : text :=
  match bs with
  | [] => []
  | b0 :: r0 =>
    if b0 <? 0x80 then b0 :: utf8_decode r0
    else match r0 with
    | [] => []
    | b1 :: r1 =>
      if b0 <? 0xE0 then
        ((b0 - 0xC0) * 64 + (b1 - 0x80)) :: utf8_decode r1
      else match r1 with
      | [] => []
      | b2 :: r2 =>
        if b0 <? 0xF0 then
          ((b0 - 0xE0) * 4096 + (b1 - 0x80) * 64 + (b2 - 0x80))
            :: utf8_decode r2
        else match r2 with
        | [] => []
        | b3 :: r3 =>
          ((b0 - 0xF0) * 262144 + (b1 - 0x80) * 4096
             + (b2 - 0x80) * 64 + (b3 - 0x80)) :: utf8_decode r3
        end
      end
    end
  end.

Definition bytes_of_string (s : string) : list Z :=
  map (fun a => Z.of_nat (Ascii.nat_of_ascii a)) (String.list_ascii_of_string s).

(** [u "..."] is the Python string written by that literal. *)
Definition u (s : string) : text := utf8_decode (bytes_of_string s).

(** [s.startswith(p)] *)
Fixpoint startswith (s p : text) : bool :=
  match p, s with
  | [], _ => true
  | _ :: _, [] => false
  | c :: p', d :: s' => (c =? d) && startswith s' p'
  end.

(** [p in s] for strings: [p] occurs as a contiguous substring of [s]. *)
Fixpoint contains (s p : text) : bool :=
  startswith s p ||
  match s with
  | [] => false
  | _ :: s' => contains s' p
  end.

(** [str.lower()] on the ASCII letters.  The case mapping of the other
    cased letters is not part of this embedding; the keywords, city names
    and patterns of the source consist of uncased characters only. *)
Definition lower_char (c : Z) : Z :=
  if (0x41 <=? c) && (c <=? 0x5A) then c + 32 else c.

Definition lower (s : text) : text := map lower_char s.

(** Characters for which [str.isspace()] holds. *)
Definition isspace (c : Z) : bool :=
  ((0x09 <=? c) && (c <=? 0x0D)) || ((0x1C <=? c) && (c <=? 0x20))
  || (c =? 0x85) || (c =? 0xA0) || (c =? 0x1680)
  || ((0x2000 <=? c) && (c <=? 0x200A))
  || (c =? 0x2028) || (c =? 0x2029) || (c =? 0x202F) || (c =? 0x205F)
  || (c =? 0x3000).

Fixpoint lstrip (s : text) : text :=
  match s with
  | c :: s' => if isspace c then lstrip s' else s
  | [] => []
  end.

(** [str.strip()] *)
Definition strip (s : text) : text := rev (lstrip (rev (lstrip s))).

(** Code points of the decimal digit zero of every run of Unicode decimal
    digits (general category Nd, Unicode 14 as in CPython 3.11); the ten
    digits of a run are consecutive. *)
Definition nd_zeros : list Z :=
  [ 0x30; 0x660; 0x6F0; 0x7C0; 0x966; 0x9E6; 0xA66; 0xAE6; 0xB66; 0xBE6;
    0xC66; 0xCE6; 0xD66; 0xDE6; 0xE50; 0xED0; 0xF20; 0x1040; 0x1090;
    0x17E0; 0x1810; 0x1946; 0x19D0; 0x1A80; 0x1A90; 0x1B50; 0x1BB0;
    0x1C40; 0x1C50; 0xA620; 0xA8D0; 0xA900; 0xA9D0; 0xA9F0; 0xAA50;
    0xABF0; 0xFF10; 0x104A0; 0x10D30; 0x11066; 0x110F0; 0x11136; 0x111D0;
    0x112F0; 0x11450; 0x114D0; 0x11650; 0x116C0; 0x11730; 0x118E0;
    0x11950; 0x11C50; 0x11D50; 0x11DA0; 0x16A60; 0x16AC0; 0x16B50;
    0x1D7CE; 0x1D7D8; 0x1D7E2; 0x1D7EC; 0x1D7F6; 0x1E140; 0x1E2F0;
    0x1E950; 0x1FBF0 ].

Fixpoint digit_in (zeros : list Z) (c : Z) : option Z :=
  match zeros with
  | [] => None
  | z :: zs =>
    if (z <=? c) && (c <? z + 10) then Some (c - z) else digit_in zs c
  end.

(** The decimal value of a character, when it is a decimal digit. *)
Definition digit_value (c : Z) : option Z := digit_in nd_zeros c.

(** [\d] of the [re] module on [str] patterns. *)
Definition isdecimal (c : Z) : bool :=
  match digit_value c with Some _ => true | None => false end.

(** [str(n)] for an integer. *)
Definition str_of_Z (n : Z) : text :=
  bytes_of_string (NilZero.string_of_int (Z.to_int n)).

End Text.
Import Text.

(** ** Exceptions *)

Inductive pyresult (A : Type) : Type :=
| Ok (a : A)
| Raise (msg : text).
Arguments Ok {A} a.
Arguments Raise {A} msg.

Definition bindr {A B} (m : pyresult A) (k : A -> pyresult B) : pyresult B :=
  match m with
  | Ok a => k a
  | Raise e => Raise e
  end.

Fixpoint mapr {A B} (f : A -> pyresult B) (l : list A) : pyresult (list B) :=
  match l with
  | [] => Ok []
  | x :: l' =>
    bindr (f x) (fun y => bindr (mapr f l') (fun ys => Ok (y :: ys)))
  end.


(** ** Regular expressions

    The fragment of Python's [re] that the source uses: literals, the
    classes [\d] and [.], greedy [+] and [*] on a class, a greedy optional
    non-capturing group, concatenation and one capturing group.  Matching
    is by backtracking, the alternatives tried in the order of [re]. *)

Module Re.

Inductive charclass : Type :=
| Digit   (* \d *)
| Dot.    (* .  : any character except a newline *)

Definition in_class (k : charclass) (c : Z) : bool :=
  match k with
  | Digit => isdecimal c
  | Dot => negb (c =? 0x0A)
  end.

Inductive regex : Type :=
| Lit (c : Z)
| Plus (k : charclass)
| Star (k : charclass)
| Opt (r : regex)
| Seq (r1 r2 : regex)
| Group (r : regex)
| Eps.

(** Literal text as a pattern. *)
Definition word (s : text) : regex :=
  foldr (fun c acc => Seq (Lit c) acc) Eps s.

Section Matcher.
Context {A : Type}.

(** Greedy repetition: the longest run first, shorter ones on failure of
    the continuation. *)
Fixpoint greedy (k : charclass) (s : text)
    (cont : text -> option A) : option A :=
  match s with
  | c :: s' =>
    if in_class k c then
      match greedy k s' cont with
      | Some a => Some a
      | None => cont s
      end
    else cont s
  | [] => cont []
  end.

(** [rmatch r s g cont]: match [r] at the head of [s]; [g] is the text
    captured by the group so far, [cont] receives the rest of the input
    and the capture. *)
Fixpoint rmatch (r : regex) (s : text) (g : option text)
    (cont : text -> option text -> option A) : option A :=
  match r with
  | Lit c =>
    match s with
    | d :: s' => if d =? c then cont s' g else None
    | [] => None
    end
  | Plus k =>
    match s with
    | d :: s' =>
      if in_class k d then greedy k s' (fun s'' => cont s'' g) else None
    | [] => None
    end
  | Star k => greedy k s (fun s'' => cont s'' g)
  | Opt r' =>
    match rmatch r' s g cont with
    | Some a => Some a
    | None => cont s g
    end
  | Seq r1 r2 => rmatch r1 s g (fun s' g' => rmatch r2 s' g' cont)
  | Group r' =>
    rmatch r' s g
      (fun s' _ => cont s' (Some (take (length s - length s') s)))
  | Eps => cont s g
  end.
End Matcher.

(** A match anchored at the head of [s]: the number of characters consumed
    and the capture. *)
Definition match_at (r : regex) (s : text) : option (nat * option text) :=
  rmatch r s None (fun s' g => Some ((length s - length s')%nat, g)).

(** [re.search(r, s)]: the leftmost match. *)
Fixpoint search (r : regex) (s : text) : option (nat * option text) :=
  match match_at r s with
  | Some m => Some m
  | None =>
    match s with
    | [] => None
    | _ :: s' => search r s'
    end
  end.

(** Truth value of a match object. *)
Definition matched {M} (m : option M) : bool :=
  match m with Some _ => true | None => false end.

(** [m.group(1)] *)
Definition group1 (m : nat * option text) : text := default [] (snd m).

(** [re.findall(r, s)] for a pattern with one group: the captures of the
    successive non-overlapping matches, left to right.  [skip] counts the
    characters still covered by the previous match. *)
Fixpoint findall_from (r : regex) (s : text) (skip : nat) : list text :=
  match s with
  | [] => []
  | _ :: s' =>
    match skip with
    | S n => findall_from r s' n
    | O =>
      match match_at r s with
      | Some m => group1 m :: findall_from r s' (fst m - 1)
      | None => findall_from r s' 0
      end
    end
  end.

Definition findall (r : regex) (s : text) : list text := findall_from r s 0.

(** [matches r w g g']: the pattern [r] can consume exactly [w], turning
    the capture [g] into [g'].  This is the declarative reading of a
    pattern, against which the matcher is checked below. *)
Inductive matches : regex -> text -> option text -> option text -> Prop :=
| matches_lit c g : matches (Lit c) [c] g g
| matches_plus k w g :
    w <> [] -> Forall (fun c => in_class k c = true) w ->
    matches (Plus k) w g g
| matches_star k w g :
    Forall (fun c => in_class k c = true) w -> matches (Star k) w g g
| matches_opt_some r w g g' : matches r w g g' -> matches (Opt r) w g g'
| matches_opt_none r g : matches (Opt r) [] g g
| matches_seq r1 r2 w1 w2 g g1 g2 :
    matches r1 w1 g g1 -> matches r2 w2 g1 g2 ->
    matches (Seq r1 r2) (w1 ++ w2) g g2
| matches_group r w g g' : matches r w g g' -> matches (Group r) w g (Some w)
| matches_eps g : matches Eps [] g g.

End Re.

(** ** Floating-point numbers *)

Module Float.

(** A non-negative binary64 value: a finite one by its exact value, in
    lowest terms, or the infinity that conversion overflows to. *)
Inductive pyfloat : Type :=
| Finite (q : Q)
| Infinity.

Definition two_pow (e : Z) : Q :=
  if 0 <=? e then inject_Z (2 ^ e) else / inject_Z (2 ^ (- e)).

(** Round a non-negative rational to the nearest integer, ties to even. *)
Definition round_half_even (q : Q) : Z :=
  let n := Qnum q in
  let d := Z.pos (Qden q) in
  let f := n / d in
  let r := n mod d in
  match 2 * r ?= d with
  | Lt => f
  | Gt => f + 1
  | Eq => if Z.even f then f else f + 1
  end.

(** floor (log2 q) for q > 0. *)
Definition floor_log2 (q : Q) : Z :=
  let e := Z.log2 (Qnum q) - Z.log2 (Z.pos (Qden q)) in
  if Qle_bool (two_pow e) q then e else e - 1.

(** The binary64 number nearest to the non-negative rational [q]: 53 bits
    of precision, least exponent -1074, overflow to infinity from 2^1024. *)
Definition round_binary64 (q : Q) : pyfloat :=
  if Qle_bool q 0 then Finite 0
  else
    let e := Z.max (floor_log2 q - 52) (-1074) in
    let m := round_half_even (Qred (q / two_pow e)) in
    let v := Qred (inject_Z m * two_pow e) in
    if Qle_bool (two_pow 1024) v then Infinity else Finite v.

(** [a > b] *)
Definition gt (a b : pyfloat) : bool :=
  match a, b with
  | Infinity, Finite _ => true
  | Finite x, Finite y => negb (Qle_bool x y)
  | _, Infinity => false
  end.

(** The float of an integer literal or of [int / int]. *)
Definition of_Z (n : Z) : pyfloat := round_binary64 (inject_Z n).
Definition div_int (a b : Z) : pyfloat :=
  round_binary64 (Qred (inject_Z a / inject_Z b)).

(** Digits of a numeral, most significant first, to their value. *)
Fixpoint digits_value (acc : Z) (s : text) : pyresult Z :=
  match s with
  | [] => Ok acc
  | c :: s' =>
    match digit_value c with
    | Some d => digits_value (10 * acc + d) s'
    | None => Raise (u "invalid literal")
    end
  end.

(** [int(s)] on a string of decimal digits; CPython refuses more than
    4300 of them. *)
Definition int_of_text (s : text) : pyresult Z :=
  match s with
  | [] => Raise (u "invalid literal")
  | _ =>
    if (4300 <? length s)%nat then Raise (u "Exceeds the limit")
    else digits_value 0 s
  end.

(** Split at the first ['.']. *)
Fixpoint split_point (s : text) : text * option text :=
  match s with
  | [] => ([], None)
  | c :: s' =>
    if c =? 0x2E then ([], Some s')
    else let '(a, b) := split_point s' in (c :: a, b)
  end.

(** [float(s)] on a numeral [digits], [digits.digits], [digits.] or
    [.digits]; signs, exponents and the other spellings [float] accepts are
    not part of the embedding (the patterns of the source capture numerals
    of the first two shapes only). *)
Definition float_of_text (s : text) : pyresult pyfloat :=
  let '(ip, fp) := split_point s in
  let fp := default [] fp in
  match ip ++ fp with
  | [] => Raise (u "could not convert string to float")
  | _ =>
    bindr (digits_value 0 ip) (fun n =>
    bindr (digits_value 0 fp) (fun m =>
      Ok (round_binary64
            (Qred (inject_Z n
                   + inject_Z m / inject_Z (10 ^ Z.of_nat (length fp)))))))
  end.

(** A numeral: decimal digits, optionally followed by a point and more
    decimal digits. *)
Definition digits (w : text) : Prop :=
  w <> [] /\ Forall (fun c => isdecimal c = true) w.

Definition numeral (w : text) : Prop :=
  digits w \/ exists ip fp, w = ip ++ 0x2E :: fp /\ digits ip /\ digits fp.

(** A pattern all of whose matches capture a numeral. *)
Definition captures_numeral (r : Re.regex) : Prop :=
  forall w g',
    Re.matches r w None g' -> exists cap, g' = Some cap /\ numeral cap.

End Float.

(** ** The rule-based command processor *)

Module VoiceCommandProcessor.
Import Re Float.

(** Values stored in the [entities] dictionary. *)
Inductive value : Type :=
| VStr (s : text)
| VInt (n : Z)
| VFloat (x : pyfloat).

(** A dictionary whose iteration order matters: pairs in insertion
    order; assigning to a present key keeps its place. *)
Fixpoint dict_get {V} (d : list (string * V)) (k : string) (dflt : V) : V :=
  match d with
  | [] => dflt
  | (k', v) :: d' => if String.eqb k' k then v else dict_get d' k dflt
  end.

Fixpoint dict_set {V} (d : list (string * V)) (k : string) (v : V)
    : list (string * V) :=
  match d with
  | [] => [(k, v)]
  | (k', v') :: d' =>
    if String.eqb k' k then (k, v) :: d' else (k', v') :: dict_set d' k v
  end.

(** [max(items, key=...)]: the first item whose key is not exceeded. *)
Fixpoint max_from {A} (gtb : A -> A -> bool) (best : A) (l : list A) : A :=
  match l with
  | [] => best
  | x :: l' => max_from gtb (if gtb x best then x else best) l'
  end.

Definition intent_keywords : list (string * list text) :=
  [ ("create_plan"%string,
     map u ["创建"; "制定"; "规划"; "安排"; "计划"; "旅游"; "旅行"; "去"]%string);
    ("modify_plan"%string,
     map u ["修改"; "更改"; "调整"; "变更"; "改变"]%string);
    ("add_expense"%string,
     map u ["花费"; "费用"; "开销"; "支出"; "消费"; "买"; "付"; "花了"; "元"]%string);
    ("query_plan"%string,
     map u ["查看"; "显示"; "告诉我"; "什么时候"; "哪里"; "怎么"]%string);
    ("general"%string,
     map u ["你好"; "谢谢"; "再见"; "帮助"]%string) ].

(** Number of keywords of the list that occur in the text. *)
Definition keyword_hits (t : text) (keywords : list text) : Z :=
  Z.of_nat (length (filter (fun kw => contains t kw = true) keywords)).

(** The scoring loop over [intent_keywords]. *)
Fixpoint score_keywords (t : text) (table : list (string * list text))
    (intent_scores : list (string * Z)) : list (string * Z) :=
  match table with
  | [] => intent_scores
  | (intent, keywords) :: table' =>
    let score := keyword_hits t keywords in
    score_keywords t table'
      (if 0 <? score then dict_set intent_scores intent score
       else intent_scores)
  end.

(** [\d+.*元] *)
Definition money_pattern : regex :=
  Seq (Plus Digit) (Seq (Star Dot) (word (u "元"))).

Definition classifier_destinations : list text :=
  map u ["北京"; "上海"; "广州"; "深圳"; "杭州"; "成都"; "西安"; "南京";
         "日本"; "韩国"; "泰国"]%string.

Definition travel_words : list text :=
  map u ["旅游"; "旅行"; "去"; "玩"]%string.

Definition any_in (t : text) (words : list text) : bool :=
  existsb (contains t) words.

(** The scores after the keyword loop and the two bonuses. *)
Definition intent_scores_of (t : text) : list (string * Z) :=
  let text_lower := lower t in
  let intent_scores := score_keywords text_lower intent_keywords [] in
  let intent_scores :=
    if matched (search money_pattern text_lower)
    then dict_set intent_scores "add_expense"
           (dict_get intent_scores "add_expense" 0 + 3)
    else intent_scores in
  if any_in text_lower classifier_destinations
     && any_in text_lower travel_words
  then dict_set intent_scores "create_plan"
         (dict_get intent_scores "create_plan" 0 + 2)
  else intent_scores.

(** [_classify_intent_rule_based] *)
Definition classify_intent_rule_based (t : text) : string :=
  match intent_scores_of t with
  | [] => "general"%string
  | first :: rest =>
    fst (max_from (fun a b => snd b <? snd a) first rest)
  end.

(** The cities the entity extractor knows. *)
Definition destinations : list text :=
  map u ["北京"; "上海"; "广州"; "深圳"; "杭州"; "成都"; "西安"; "南京"]%string.

(** [\d+(?:\.\d+)?] *)
Definition number : regex :=
  Seq (Plus Digit) (Opt (Seq (Lit 0x2E) (Plus Digit))).

(** [(\d+)天] and [(\d+)元] *)
Definition days_pattern : regex := Seq (Group (Plus Digit)) (word (u "天")).
Definition budget_pattern : regex := Seq (Group (Plus Digit)) (word (u "元")).

Definition amount_patterns : list regex :=
  [ Seq (Group number) (word (u "元"));
    Seq (word (u "花了")) (Group number);
    Seq (word (u "费用")) (Group number);
    Seq (Group number) (word (u "块")) ].

(** [(\d+(?:\.\d+)?)] *)
Definition bare_number : regex := Group number.

(** The category table, in the order of the dictionary literal. *)
Definition categories : list (text * text) :=
  map (fun kc => (u (fst kc), u (snd kc)))
  [ ("门票", "entertainment"); ("景点", "entertainment");
    ("游乐", "entertainment"); ("玩", "entertainment");
    ("博物馆", "entertainment"); ("公园", "entertainment");
    ("演出", "entertainment"); ("电影", "entertainment");
    ("吃", "food"); ("餐", "food"); ("饭", "food"); ("喝", "food");
    ("茶", "food"); ("咖啡", "food"); ("早餐", "food"); ("午餐", "food");
    ("晚餐", "food"); ("夜宵", "food"); ("小吃", "food");
    ("住", "accommodation"); ("酒店", "accommodation");
    ("宾馆", "accommodation"); ("民宿", "accommodation");
    ("旅店", "accommodation"); ("客栈", "accommodation");
    ("车", "transportation"); ("地铁", "transportation");
    ("公交", "transportation"); ("出租", "transportation");
    ("火车", "transportation"); ("飞机", "transportation");
    ("船", "transportation"); ("票", "transportation");
    ("买", "shopping"); ("购", "shopping"); ("商店", "shopping");
    ("超市", "shopping"); ("纪念品", "shopping"); ("礼品", "shopping")
  ]%string.

(** The first destination that occurs in the text. *)
Definition first_destination (t : text) : option text :=
  List.find (contains t) destinations.

(** The loop over [amount_patterns]: the first capture of the first
    pattern that has a match. *)
Fixpoint first_pattern_match (patterns : list regex) (t : text)
    : option text :=
  match patterns with
  | [] => None
  | p :: patterns' =>
    match findall p t with
    | m :: _ => Some m
    | [] => first_pattern_match patterns' t
    end
  end.

(** [float(max(amount_matches, key=float))] *)
Definition largest_number (amount_matches : list text)
    : pyresult (option pyfloat) :=
  bindr (mapr float_of_text amount_matches) (fun keys =>
    match keys with
    | [] => Ok None
    | k :: keys' => Ok (Some (max_from gt k keys'))
    end).

(** The amount of an expense: pattern by pattern, then the bare numbers. *)
Definition extract_amount (t : text) : pyresult (option pyfloat) :=
  match first_pattern_match amount_patterns t with
  | Some m => bindr (float_of_text m) (fun x => Ok (Some x))
  | None => largest_number (findall bare_number t)
  end.

(** The loop over [categories]: the category of the first keyword, in
    table order, that occurs in the text. *)
Fixpoint first_category (table : list (text * text)) (t : text)
    : option text :=
  match table with
  | [] => None
  | (keyword, category) :: table' =>
    if contains t keyword then Some category else first_category table' t
  end.

(** The category inferred from the amount alone. *)
Definition category_of_amount (amount : pyfloat) : text :=
  if gt amount (of_Z 500) then u "accommodation"
  else if gt amount (of_Z 100) then u "entertainment"
  else u "food".

Definition set_opt (k : string) (v : option value)
    (entities : gmap string value) : gmap string value :=
  match v with
  | Some x => <[k := x]> entities
  | None => entities
  end.

(** [_extract_entities_rule_based] *)
Definition extract_entities_rule_based (t : text) (intent : string)
    : pyresult (gmap string value) :=
  let entities : gmap string value := ∅ in
  if String.eqb intent "create_plan" then
    let entities :=
      set_opt "destination" (VStr <$> first_destination t) entities in
    bindr (match search days_pattern t with
           | Some m => bindr (int_of_text (group1 m)) (fun n =>
                         Ok (<["days" := VInt n]> entities))
           | None => Ok entities
           end) (fun entities =>
    match search budget_pattern t with
    | Some m => bindr (int_of_text (group1 m)) (fun n =>
                  Ok (<["budget" := VInt n]> entities))
    | None => Ok entities
    end)
  else if String.eqb intent "add_expense" then
    bindr (extract_amount t) (fun amount =>
    let entities := set_opt "amount" (VFloat <$> amount) entities in
    let entities :=
      set_opt "category" (VStr <$> first_category categories t) entities in
    match entities !! "category"%string, entities !! "amount"%string with
    | None, Some (VFloat amount) =>
      Ok (<["category" := VStr (category_of_amount amount)]> entities)
    | _, _ => Ok entities
    end)
  else Ok entities.

(** The result of [_fallback_rule_based_processing], without the response
    sentence (built from the intent and the entities by fixed templates). *)
Record command : Type := Command {
  intent : string;
  confidence : pyfloat;
  entities : gmap string value
}.

Definition fallback_rule_based_processing (transcription : text)
    : pyresult command :=
  let intent := classify_intent_rule_based transcription in
  bindr (extract_entities_rule_based transcription intent) (fun entities =>
    Ok (Command intent (round_binary64 (75 # 100)) entities)).

(** The two utterances of the specification's examples. *)
Definition expense_utterance : text := u "我花了60元吃饭".
Definition plan_utterance : text := u "我想去北京玩3天，预算2000元".

End VoiceCommandProcessor.

(** ** The streaming recognition client *)

Module VoiceRecognitionService.
Import Float.

Definition STATUS_FIRST_FRAME : Z := 0.
Definition STATUS_CONTINUE_FRAME : Z := 1.
Definition STATUS_LAST_FRAME : Z := 2.

(** One message handed to [ws.send]: the [header.status] tag and the audio
    bytes of [payload.audio.audio] (before their base64 spelling); the
    application id and the [iat] parameters are the same in every frame. *)
Record frame : Type := Frame {
  status : Z;
  audio : list Z
}.

Definition frame_size : nat := 1280.

(** [audio_data[a:b]] for [a <= b] *)
Definition slice (audio_data : list Z) (a b : nat) : list Z :=
  take (b - a) (drop a audio_data).

Definition is_empty (buf : list Z) : bool :=
  match buf with [] => true | _ => false end.

(** The loop of [run] inside [_on_open], from the state
    ([audio_offset], [status]); the result lists the frames sent. *)
Equations? run (audio_data : list Z) (audio_offset : nat) (status : Z)
    : list frame by wf (length audio_data - audio_offset)%nat lt :=
run audio_data audio_offset status
  with lt_dec audio_offset (length audio_data) => {
  | right _ => [];
  | left _ =>
    let end_offset :=
      Nat.min (audio_offset + frame_size) (length audio_data) in
    let buf := slice audio_data audio_offset end_offset in
    let status := if is_empty buf then STATUS_LAST_FRAME else status in
    let sent :=
      if status =? STATUS_FIRST_FRAME then [Frame 0 buf]
      else if status =? STATUS_CONTINUE_FRAME then [Frame 1 buf]
      else [] in
    let status :=
      if status =? STATUS_FIRST_FRAME then STATUS_CONTINUE_FRAME
      else status in
    if (length audio_data <=? end_offset)%nat
    then sent ++ [Frame 2 buf]
    else sent ++ run audio_data end_offset status }.
Proof. subst end_offset. unfold frame_size. lia. Qed.

(** The frames [_on_open] sends for a PCM buffer. *)
Definition send_frames (audio_data : list Z) : list frame :=
  run audio_data 0 STATUS_FIRST_FRAME.

(** The service object: credentials and the recognition state. *)
Record service : Type := Service {
  app_id : option text;
  api_key : option text;
  api_secret : option text;
  recognition_result : text;
  recognition_complete : bool;
  recognition_error : option text
}.

(** Truth value of an optional string: [None] and the empty string are
    false. *)
Definition truthy (o : option text) : bool :=
  match o with
  | Some (_ :: _) => true
  | _ => false
  end.

Definition set_result (svc : service) (r : text) : service :=
  Service (app_id svc) (api_key svc) (api_secret svc)
          r (recognition_complete svc) (recognition_error svc).
Definition set_complete (svc : service) (b : bool) : service :=
  Service (app_id svc) (api_key svc) (api_secret svc)
          (recognition_result svc) b (recognition_error svc).
Definition set_error (svc : service) (e : option text) : service :=
  Service (app_id svc) (api_key svc) (api_secret svc)
          (recognition_result svc) (recognition_complete svc) e.

(** The three assignments that clear the recognition state before a run. *)
Definition reset (svc : service) : service :=
  set_error (set_complete (set_result svc []) false) None.

(** A received message, as far as [_on_message] looks at it.
    [Unreadable e]: reading the envelope or its header raised [e].
    [Envelope code status p]: the header fields and the payload, which is
    absent (or empty), a list of [ws] entries each with the words [w] of
    its [cw] list, or one whose decoding raises. *)
Inductive payload : Type :=
| NoPayload
| Words (ws : list (list text))
| BadPayload (e : text).

Inductive message : Type :=
| Unreadable (e : text)
| Envelope (code status : Z) (p : payload).

(** [_on_message]; the boolean tells whether [ws.close()] was called. *)
Definition on_message (svc : service) (m : message) : service * bool :=
  match m with
  | Unreadable e => (set_error svc (Some e), true)
  | Envelope code status p =>
    if negb (code =? 0) then
      (set_error svc (Some (u "请求错误：" ++ str_of_Z code)), true)
    else
      match p with
      | BadPayload e => (set_error svc (Some e), true)
      | _ =>
        let svc :=
          match p with
          | Words ws =>
            set_result svc (recognition_result svc ++ concat (concat ws))
          | _ => svc
          end in
        if status =? 2 then (set_complete svc true, true) else (svc, false)
      end
  end.

(** [svc'] is [svc] moved forward: no flag cleared, no text removed. *)
Definition forward (svc svc' : service) : Prop :=
  (recognition_complete svc = true -> recognition_complete svc' = true)
  /\ (recognition_error svc <> None -> recognition_error svc' <> None)
  /\ exists fragment,
       recognition_result svc' = recognition_result svc ++ fragment.

(** [_on_error] *)
Definition on_error (svc : service) (error : text) : service :=
  set_error svc (Some error).

(** The decoding library.  [from_file (Some fmt) data] and
    [from_file None data] are [AudioSegment.from_file] with and without a
    format ([None] as a result: the call raised); [raw_pcm] is the chain
    [set_frame_rate(16000).set_channels(1).set_sample_width(2).raw_data]. *)
Record pydub : Type := Pydub {
  segment : Type;
  PYDUB_AVAILABLE : bool;
  from_file : option text -> list Z -> option segment;
  raw_pcm : segment -> pyresult (list Z)
}.

Definition formats_to_try : list text :=
  map u ["webm"; "wav"; "mp3"; "ogg"; "mp4"]%string.

Fixpoint try_formats (lib : pydub) (formats : list text)
    (audio_data : list Z) : option (segment lib) :=
  match formats with
  | [] => None
  | fmt :: formats' =>
    match from_file lib (Some fmt) audio_data with
    | Some a => Some a
    | None => try_formats lib formats' audio_data
    end
  end.

(** [_convert_audio_to_pcm] *)
Definition convert_audio_to_pcm (lib : pydub) (audio_data : list Z)
    : pyresult (list Z) :=
  if negb (PYDUB_AVAILABLE lib) then Raise (u "音频格式转换库未安装")
  else
    let decoded :=
      match try_formats lib formats_to_try audio_data with
      | Some a => Ok a
      | None =>
        match from_file lib None audio_data with
        | Some a => Ok a
        | None => Raise (u "无法识别音频格式")
        end
      end in
    match bindr decoded (raw_pcm lib) with
    | Ok pcm_data => Ok pcm_data
    | Raise e => Raise (u "音频格式转换失败: " ++ e)
    end.

(** What the websocket library does during [run_forever]: the callbacks
    it invokes, in order, and whether the call itself raises at the end. *)
Inductive ws_event : Type :=
| Opened
| Received (m : message)
| Failed (error : text)
| ClosedByPeer.

Record channel : Type := Channel {
  events : list ws_event;
  run_raises : option text
}.

(** A callback that records an error whose message is the empty string:
    [_on_error] with such an error, or a message whose reading or payload
    raises one. *)
Definition records_empty_error (ev : ws_event) : bool :=
  match ev with
  | Failed [] => true
  | Received (Unreadable []) => true
  | Received (Envelope code _ (BadPayload [])) => code =? 0
  | _ => false
  end.

(** Effects of [transcribe_audio] on the outside world. *)
Inductive effect : Type :=
| Converted
| UrlCreated
| Connected
| Sent (f : frame)
| CloseRequested.

(** One callback: the new state and the effects it causes. *)
Definition dispatch (pcm_audio_data : list Z) (svc : service)
    (ev : ws_event) : service * list effect :=
  match ev with
  | Opened => (svc, map Sent (send_frames pcm_audio_data))
  | Received m =>
    let '(svc', closed) := on_message svc m in
    (svc', if closed then [CloseRequested] else [])
  | Failed error => (on_error svc error, [])
  | ClosedByPeer => (svc, [])
  end.

Fixpoint run_forever (pcm_audio_data : list Z) (svc : service)
    (evs : list ws_event) : service * list effect :=
  match evs with
  | [] => (svc, [])
  | ev :: evs' =>
    let '(svc1, out1) := dispatch pcm_audio_data svc ev in
    let '(svc2, out2) := run_forever pcm_audio_data svc1 evs' in
    (svc2, out1 ++ out2)
  end.

(** The dictionary [transcribe_audio] returns. *)
Inductive transcription : Type :=
| Success (text : text) (confidence duration : pyfloat)
| Failure (error : text).

Definition timeout : Q := 30.

(** [time.time()] at its [i]-th call after [run_forever] has returned:
    the binary64 number nearest to the time [clock i] (in seconds, not
    negative). *)
Definition time (clock : nat -> Q) (i : nat) : pyfloat :=
  round_binary64 (clock i).

(** [now - start_time > timeout] on floats.  The difference of two
    readings is the binary64 number nearest to their exact difference; it
    is zero or negative when [now] is not later than [start_time], and
    with an infinite [start_time] it is minus infinity or not a number,
    which exceed nothing. *)
Definition elapsed_exceeds (now start_time : pyfloat) : bool :=
  match now, start_time with
  | Finite a, Finite b =>
    if Qle_bool a b then false
    else gt (round_binary64 (Qred (a - b))) (Finite timeout)
  | Infinity, Finite _ => true
  | _, Infinity => false
  end.

(** The polling loop, for at most [fuel] rounds, the first of which takes
    the reading number [i].  No callback runs any more, so the flags are
    those of [svc].  The result is [true] when the loop is left by the
    timeout, and [None] when it is still polling after [fuel] rounds. *)
Fixpoint wait (clock : nat -> Q) (start_time : pyfloat) (svc : service)
    (i fuel : nat) : option bool :=
  match fuel with
  | O => None
  | S fuel' =>
    if negb (recognition_complete svc)
       && negb (truthy (recognition_error svc))
    then
      if elapsed_exceeds (time clock i) start_time then Some true
      else wait clock start_time svc (S i) fuel'
    else Some false
  end.

Definition not_configured : text :=
  u "语音识别服务未配置，请在设置中配置科大讯飞API密钥".
Definition timed_out : text := u "语音识别超时，请重试".
Definition failed (e : text) : text := u "语音识别失败: " ++ e.

(** The message of the error [_convert_audio_to_pcm] raises when no
    decoder takes the input. *)
Definition unsupported_format : text := u "音频格式转换失败: 无法识别音频格式".

(** [transcribe_audio]: the result, the service object afterwards and the
    effects, or [None] when [fuel] polling rounds do not suffice. *)
Definition transcribe_audio (lib : pydub) (chan : channel)
    (clock : nat -> Q) (fuel : nat) (svc : service) (audio_data : list Z)
    : option (transcription * service * list effect) :=
  if negb (truthy (api_key svc)) || negb (truthy (api_secret svc))
     || negb (truthy (app_id svc))
  then Some (Failure not_configured, svc, [])
  else
    match convert_audio_to_pcm lib audio_data with
    | Raise e => Some (Failure (failed e), svc, [Converted])
    | Ok pcm_audio_data =>
      let svc := reset svc in
      let '(svc, out) := run_forever pcm_audio_data svc (events chan) in
      let out := [Converted; UrlCreated; Connected] ++ out in
      match run_raises chan with
      | Some e => Some (Failure (failed e), svc, out)
      | None =>
        let start_time := time clock O in
        match wait clock start_time svc 1 fuel with
        | None => None
        | Some true => Some (Failure timed_out, svc, out)
        | Some false =>
          match recognition_error svc with
          | Some (c :: e) => Some (Failure (failed (c :: e)), svc, out)
          | _ =>
            Some (Success (strip (recognition_result svc))
                          (round_binary64 (92 # 100))
                          (div_int (Z.of_nat (length audio_data)) 32000),
                  svc, out)
          end
        end
      end
    end.

(** *** Collaborators for the examples below *)

(** A decoding library that takes any input as raw PCM. *)
Definition passthrough : pydub :=
  Pydub (list Z) true (fun _ data => Some data) (fun a => Ok a).

(** A decoding library none of whose decoders accepts anything. *)
Definition undecodable : pydub :=
  Pydub (list Z) true (fun _ _ => None) (fun a => Ok a).

(** A clock that advances 31 seconds between two readings. *)
Definition slow_clock (i : nat) : Q := inject_Z (31 * Z.of_nat i).

(** A service object with credentials, and one without an API key. *)
Definition configured : service :=
  Service (Some (u "5f8a2c1d")) (Some (u "key")) (Some (u "secret"))
          [] false None.
Definition unconfigured : service :=
  Service (Some (u "5f8a2c1d")) (Some []) (Some (u "secret"))
          (u "上一次的结果") true None.

(** A peer that closes without an answer, and one that answers with the
    two words of a greeting and the final status. *)
Definition silent_peer : channel := Channel [Opened; ClosedByPeer] None.
Definition greeting_peer : channel :=
  Channel [Opened;
           Received (Envelope 0 1 (Words [[u "你好"]]));
           Received (Envelope 0 2 (Words [[u "世界"]; [u " "]]))] None.



(** A service object whose recognition is complete. *)
Definition finished : service :=
  Service (Some (u "5f8a2c1d")) (Some (u "key")) (Some (u "secret"))
          (u "你好") true None.

End VoiceRecognitionService.

(** ** Audio files *)

Module AudioFileManager.

(** [validate_audio_format] *)
Definition validate_audio_format (audio_data : list Z) : bool :=
  if (length audio_data <? 44)%nat then false
  else if bool_decide (take 4 audio_data = bytes_of_string "RIFF")
          && bool_decide (take 4 (drop 8 audio_data) = bytes_of_string "WAVE")
  then true
  else true.

End AudioFileManager.

(** ** The voice service: transcription, then interpretation *)

Module VoiceService.
Import Float VoiceCommandProcessor VoiceRecognitionService.

(** What [_analyze_with_llm] reads in the reply of the language model,
    once it is parsed as a JSON object: the values of the four keys, each
    absent or some JSON value (of a type [J] left open). *)
Record llm_reply (J : Type) : Type := Reply {
  reply_intent : option J;
  reply_confidence : option J;
  reply_entities : option J;
  reply_response : option J
}.
Arguments Reply {J}.
Arguments reply_intent {J}.
Arguments reply_confidence {J}.
Arguments reply_entities {J}.
Arguments reply_response {J}.

(** A value of a result dictionary: a string, a float, the entities of
    the rule-based extractor, or a JSON value taken from the reply. *)
Inductive pyvalue (J : Type) : Type :=
| PStr (s : text)
| PFloat (x : pyfloat)
| PEntities (d : gmap string value)
| PJson (j : J).
Arguments PStr {J}.
Arguments PFloat {J}.
Arguments PEntities {J}.
Arguments PJson {J}.

(** The dictionary [process_command] returns. *)
Record command_dict (J : Type) : Type := CommandDict {
  cd_intent : pyvalue J;
  cd_confidence : pyvalue J;
  cd_entities : pyvalue J;
  cd_response : pyvalue J
}.
Arguments CommandDict {J}.
Arguments cd_intent {J}.
Arguments cd_confidence {J}.
Arguments cd_entities {J}.
Arguments cd_response {J}.

(** The dictionary [process_voice_command] returns ([error] is present in
    a failure only). *)
Record voice_result (J : Type) : Type := VoiceResult {
  success : bool;
  error : option text;
  transcription_text : text;
  vr_intent : pyvalue J;
  vr_entities : pyvalue J;
  vr_response : pyvalue J;
  vr_confidence : pyvalue J
}.
Arguments VoiceResult {J}.
Arguments success {J}.
Arguments error {J}.
Arguments transcription_text {J}.
Arguments vr_intent {J}.
Arguments vr_entities {J}.
Arguments vr_response {J}.
Arguments vr_confidence {J}.

Section Pipeline.
Context {J : Type}.

(** [str(x)] of a float, as the interpreter prints it. *)
Variable float_str : pyfloat -> text.

(** The language-model stage for a transcript: the parsed reply, or
    nothing when there is no service, no answer, or no JSON object in it. *)
Variable analyze : text -> option (llm_reply J).

(** A value of the entities inside an f-string. *)
Definition str_value (v : value) : text :=
  match v with
  | VStr s => s
  | VInt n => str_of_Z n
  | VFloat x => float_str x
  end.

(** [entities.get(k, dflt)] inside an f-string. *)
Definition get_str (entities : gmap string value) (k : string)
    (dflt : text) : text :=
  match entities !! k with
  | Some v => str_value v
  | None => dflt
  end.

(** [_generate_response] (the context is not used). *)
Definition generate_response (intent : string)
    (entities : gmap string value) : text :=
  if String.eqb intent "create_plan" then
    u "好的，我来为您规划"
      ++ get_str entities "destination" (u "目的地")
      ++ get_str entities "days" (u "几")
      ++ u "天的旅行，预算"
      ++ get_str entities "budget" (u "预算")
      ++ u "元。"
  else if String.eqb intent "modify_plan" then
    u "请告诉我您想要修改行程的哪个部分？"
  else if String.eqb intent "add_expense" then
    u "已记录"
      ++ get_str entities "category" (u "费用")
      ++ u "支出"
      ++ get_str entities "amount" (u "金额")
      ++ u "元。"
  else if String.eqb intent "query_plan" then
    u "让我为您查看当前的旅行计划..."
  else
    u "我是您的旅行助手，可以帮您规划行程、记录费用。请告诉我您需要什么帮助？".

(** The dictionary for a transcript that is empty. *)
Definition not_heard : command_dict J :=
  CommandDict (PStr (u "unknown")) (PFloat (round_binary64 0))
              (PEntities ∅) (PStr (u "抱歉，我没有听清楚您说的话。")).

(** [complete_result] of [_analyze_with_llm]: the four keys of the reply,
    with a default for each that is absent. *)
Definition complete_result (reply : llm_reply J) : command_dict J :=
  CommandDict
    (default (PStr (u "unknown")) (PJson <$> reply_intent reply))
    (default (PFloat (round_binary64 (9 # 10)))
             (PJson <$> reply_confidence reply))
    (default (PEntities ∅) (PJson <$> reply_entities reply))
    (default (PStr (u "已处理您的请求")) (PJson <$> reply_response reply)).

(** [_fallback_rule_based_processing], with the response sentence. *)
Definition fallback_with_response (transcription : text)
    : pyresult (command_dict J) :=
  bindr (fallback_rule_based_processing transcription) (fun c =>
    Ok (CommandDict (PStr (bytes_of_string (intent c)))
                    (PFloat (confidence c))
                    (PEntities (entities c))
                    (PStr (generate_response (intent c) (entities c))))).

(** [process_command] *)
Definition process_command (transcription : text)
    : pyresult (command_dict J) :=
  match transcription with
  | [] => Ok not_heard
  | _ :: _ =>
    match analyze transcription with
    | Some reply => Ok (complete_result reply)
    | None => fallback_with_response transcription
    end
  end.

(** [VoiceService.process_voice_command]: the result (an exception of the
    rule-based stage is not caught here), the recognition service
    afterwards and the effects; [None] when the polling runs out of
    [fuel]. *)
Definition process_voice_command (lib : pydub) (chan : channel)
    (clock : nat -> Q) (fuel : nat) (svc : service) (audio_data : list Z)
    : option (pyresult (voice_result J) * service * list effect) :=
  match transcribe_audio lib chan clock fuel svc audio_data with
  | None => None
  | Some (Failure e, svc', out) =>
    Some (Ok (VoiceResult false (Some e) [] (PStr (u "unknown"))
                (PEntities ∅) (PStr []) (PFloat (round_binary64 0))),
          svc', out)
  | Some (Success t _ _, svc', out) =>
    Some (bindr (process_command t) (fun command_result =>
            Ok (VoiceResult true None t
                  (cd_intent command_result)
                  (cd_entities command_result)
                  (cd_response command_result)
                  (cd_confidence command_result))),
          svc', out)
  end.

End Pipeline.

End VoiceService.

(** ** The expense tracker's own classification *)

Module ExpenseTracker.

(** The keyword table of [categorize_expense], in the order of the
    dictionary literal. *)
Definition category_keywords : list (text * list text) :=
  map (fun ck => (u (fst ck), map u (snd ck)))
  [ ("food",
     ["餐"; "饭"; "吃"; "食"; "咖啡"; "茶"; "小吃"; "早餐"; "午餐"; "晚餐"]);
    ("transportation",
     ["车"; "票"; "地铁"; "公交"; "出租"; "滴滴"; "火车"; "飞机"; "船"]);
    ("accommodation", ["住"; "酒店"; "宾馆"; "民宿"; "旅店"; "房间"]);
    ("entertainment",
     ["门票"; "景点"; "游乐"; "电影"; "演出"; "博物馆"; "公园"]);
    ("shopping", ["买"; "购"; "商店"; "超市"; "纪念品"; "礼品"; "衣服"])
  ]%string.

(** The two nested loops: the category of the first row of the table one
    of whose keywords occurs in the description. *)
Fixpoint keyword_category (table : list (text * list text))
    (description_lower : text) : option text :=
  match table with
  | [] => None
  | (category, keywords) :: table' =>
    if existsb (contains description_lower) keywords then Some category
    else keyword_category table' description_lower
  end.

(** [categorize_expense]; the amount is any finite number, by its exact
    value. *)
Definition categorize_expense (description : text) (amount : Q) : text :=
  let description_lower := lower description in
  match keyword_category category_keywords description_lower with
  | Some category => category
  | None =>
    if negb (Qle_bool amount 500) then u "accommodation"
    else if negb (Qle_bool amount 100) then u "entertainment"
    else u "food"
  end.

End ExpenseTracker.

(** * Properties *)

(** ** The matcher against the declarative reading of patterns *)

Module ReFacts.
Import Re Float.

Lemma greedy_sound {A} k s (cont : text -> option A) a :
  greedy k s cont = Some a ->
  exists w s', s = w ++ s'
    /\ Forall (fun c => in_class k c = true) w /\ cont s' = Some a.
Proof.
  induction s as [|c s IH]; simpl; intros H.
  - exists [], []. auto.
  - destruct (in_class k c) eqn:Hc.
    + destruct (greedy k s cont) as [b|] eqn:Hg.
      * injection H as <-. destruct (IH eq_refl) as (w & s' & -> & Hw & Hk).
        exists (c :: w), s'. auto.
      * exists [], (c :: s). auto.
    + exists [], (c :: s). auto.
Qed.

(** Whatever the matcher finds is a match of the pattern: the input splits
    into the consumed word and the rest handed to the continuation. *)
Lemma rmatch_sound {A} r : forall s g (cont : text -> option text -> option A) a,
  rmatch r s g cont = Some a ->
  exists w s' g', s = w ++ s' /\ matches r w g g' /\ cont s' g' = Some a.
Proof.
  induction r as [c|k|k|r IH|r1 IH1 r2 IH2|r IH|]; simpl; intros s g cont a H.
  - destruct s as [|d s]; [discriminate|].
    destruct (d =? c) eqn:E; [|discriminate].
    apply Z.eqb_eq in E as ->.
    exists [c], s, g. split; [reflexivity|]. split; [constructor|assumption].
  - destruct s as [|d s]; [discriminate|].
    destruct (in_class k d) eqn:E; [|discriminate].
    apply greedy_sound in H as (w & s' & -> & Hw & Hk).
    exists (d :: w), s', g. split; [reflexivity|]. split; [|assumption].
    constructor; [discriminate|]. constructor; assumption.
  - apply greedy_sound in H as (w & s' & -> & Hw & Hk).
    exists w, s', g. split; [reflexivity|]. split; [constructor|]; assumption.
  - destruct (rmatch r s g cont) as [b|] eqn:E.
    + injection H as <-. apply IH in E as (w & s' & g' & -> & Hm & Hk).
      exists w, s', g'. split; [reflexivity|].
      split; [constructor|]; assumption.
    + exists [], s, g. split; [reflexivity|].
      split; [apply matches_opt_none|assumption].
  - apply IH1 in H as (w1 & s1 & g1 & -> & Hm1 & H).
    apply IH2 in H as (w2 & s2 & g2 & -> & Hm2 & H).
    exists (w1 ++ w2), s2, g2. rewrite <- app_assoc.
    split; [reflexivity|]. split; [econstructor; eassumption|assumption].
  - apply IH in H as (w & s' & g' & -> & Hm & H).
    rewrite length_app, Nat.add_sub, take_app_length in H.
    exists w, s', (Some w). split; [reflexivity|].
    split; [econstructor; eassumption|assumption].
  - exists [], s, g. split; [reflexivity|]. split; [constructor|assumption].
Qed.

Lemma match_at_sound r s m :
  match_at r s = Some m ->
  exists w s' g', s = w ++ s' /\ matches r w None g' /\ m = (length w, g').
Proof.
  unfold match_at. intros H.
  apply rmatch_sound in H as (w & s' & g' & -> & Hm & H).
  injection H as <-. rewrite length_app, Nat.add_sub.
  exists w, s', g'. auto.
Qed.

(** Every capture [findall] returns is the capture of a match. *)
Lemma findall_from_capture r s : forall skip x,
  x ∈ findall_from r s skip ->
  exists w g', matches r w None g' /\ x = default [] g'.
Proof.
  induction s as [|c s IH]; simpl; intros skip x Hx.
  - inversion Hx.
  - destruct skip as [|n]; [|eauto].
    destruct (match_at r (c :: s)) as [m|] eqn:E; [|eauto].
    apply elem_of_cons in Hx as [->|Hx]; [|eauto].
    apply match_at_sound in E as (w & s' & g' & _ & Hm & ->).
    exists w, g'. auto.
Qed.

Lemma findall_capture r s x :
  x ∈ findall r s ->
  exists w g', matches r w None g' /\ x = default [] g'.
Proof. apply findall_from_capture. Qed.

End ReFacts.

(** ** Numerals and their conversion *)

Module FloatFacts.
Import Re Float ReFacts VoiceCommandProcessor.

Lemma isdecimal_value c :
  isdecimal c = true -> exists d, digit_value c = Some d.
Proof.
  unfold isdecimal. destruct (digit_value c) as [d|]; [eauto|discriminate].
Qed.

Lemma point_not_decimal c : isdecimal c = true -> (c =? 0x2E) = false.
Proof.
  intros H. destruct (c =? 0x2E) eqn:E; [|reflexivity].
  apply Z.eqb_eq in E as ->. vm_compute in H. discriminate.
Qed.

Lemma digits_value_total w : forall acc,
  Forall (fun c => isdecimal c = true) w -> exists n, digits_value acc w = Ok n.
Proof.
  induction w as [|c w IH]; simpl; intros acc H; [eauto|].
  apply Forall_cons in H as [Hc Hw].
  apply isdecimal_value in Hc as [d ->]. auto.
Qed.

Lemma split_point_digits w :
  Forall (fun c => isdecimal c = true) w -> split_point w = (w, None).
Proof.
  induction 1 as [|c w Hc Hw IH]; simpl; [reflexivity|].
  rewrite (point_not_decimal c Hc), IH. reflexivity.
Qed.

Lemma split_point_fraction ip fp :
  Forall (fun c => isdecimal c = true) ip ->
  split_point (ip ++ 0x2E :: fp) = (ip, Some fp).
Proof.
  induction 1 as [|c w Hc Hw IH]; simpl; [reflexivity|].
  rewrite (point_not_decimal c Hc), IH. reflexivity.
Qed.

(** [float] accepts every numeral. *)
Lemma float_of_numeral w : numeral w -> exists x, float_of_text w = Ok x.
Proof.
  unfold float_of_text.
  intros [[Hne Hd]|(ip & fp & -> & [Hi Hdi] & [Hf Hdf])].
  - rewrite (split_point_digits w Hd). simpl. rewrite app_nil_r.
    destruct w as [|c w]; [contradiction|].
    destruct (digits_value_total (c :: w) 0 Hd) as [n ->]. simpl. eauto.
  - rewrite (split_point_fraction ip fp Hdi). simpl.
    destruct ip as [|c ip]; [contradiction|]. simpl app.
    destruct (digits_value_total (c :: ip) 0 Hdi) as [n ->].
    destruct (digits_value_total fp 0 Hdf) as [m ->]. simpl. eauto.
Qed.

(** Case analysis of a match along the structure of its pattern. *)
Ltac invert_match :=
  match goal with
  | H : matches (Lit _) _ _ _ |- _ => inversion H; subst; clear H
  | H : matches (Plus _) _ _ _ |- _ => inversion H; subst; clear H
  | H : matches (Star _) _ _ _ |- _ => inversion H; subst; clear H
  | H : matches (Opt _) _ _ _ |- _ => inversion H; subst; clear H
  | H : matches (Seq _ _) _ _ _ |- _ => inversion H; subst; clear H
  | H : matches (Group _) _ _ _ |- _ => inversion H; subst; clear H
  | H : matches Eps _ _ _ |- _ => inversion H; subst; clear H
  end.

Lemma matches_word s : forall w g g', matches (word s) w g g' -> g' = g.
Proof.
  induction s as [|c s IH]; simpl; intros w g g' H.
  - invert_match. reflexivity.
  - do 2 invert_match. eauto.
Qed.

(** What the pattern [\d+(?:\.\d+)?] consumes is a numeral. *)
Lemma matches_number w g g' : matches number w g g' -> numeral w /\ g' = g.
Proof.
  unfold number. intros H. repeat invert_match.
  - split; [|reflexivity]. right. do 2 eexists.
    split; [reflexivity|]. split; split; assumption.
  - rewrite app_nil_r. split; [|reflexivity]. left. split; assumption.
Qed.

Lemma captures_bare : captures_numeral (Group number).
Proof.
  intros w g' H. invert_match.
  match goal with H : matches number _ _ _ |- _ =>
    apply matches_number in H as [Hn _] end.
  eauto.
Qed.

Lemma captures_before s : captures_numeral (Seq (Group number) (word s)).
Proof.
  intros w g' H. invert_match.
  match goal with H : matches (Group _) _ _ _ |- _ =>
    apply captures_bare in H as (cap & -> & Hn) end.
  match goal with H : matches (word _) _ _ _ |- _ =>
    apply matches_word in H as -> end.
  eauto.
Qed.

Lemma captures_after s : captures_numeral (Seq (word s) (Group number)).
Proof.
  intros w g' H. invert_match.
  match goal with H : matches (word _) _ _ _ |- _ =>
    apply matches_word in H as -> end.
  match goal with H : matches (Group _) _ _ _ |- _ =>
    apply captures_bare in H end.
  assumption.
Qed.

Lemma captures_amount_patterns :
  Forall captures_numeral amount_patterns.
Proof.
  unfold amount_patterns.
  repeat constructor;
    first [apply captures_before | apply captures_after].
Qed.

Lemma findall_numerals r t :
  captures_numeral r -> Forall numeral (findall r t).
Proof.
  intros Hr. apply Forall_forall. intros x Hx.
  apply findall_capture in Hx as (w & g' & Hm & ->).
  apply Hr in Hm as (cap & -> & Hn). exact Hn.
Qed.

(** [gt] is the strict part of a total preorder. *)
Lemma gt_irrefl x : gt x x = false.
Proof.
  destruct x as [q|]; simpl; [|reflexivity].
  apply negb_false_iff, Qle_bool_iff, Qle_refl.
Qed.

Lemma not_gt_trans x y z : gt x y = false -> gt y z = false -> gt x z = false.
Proof.
  destruct x as [p|], y as [q|], z as [r|]; simpl; try congruence.
  rewrite !negb_false_iff, !Qle_bool_iff. apply Qle_trans.
Qed.

Lemma gt_not_gt x y : gt x y = true -> gt y x = false.
Proof.
  destruct x as [p|], y as [q|]; simpl; try congruence.
  rewrite negb_true_iff, negb_false_iff. intros H.
  apply Qle_bool_iff. destruct (Qlt_le_dec p q) as [Hlt|Hle].
  - apply Qlt_le_weak in Hlt. apply Qle_bool_iff in Hlt. congruence.
  - exact Hle.
Qed.

End FloatFacts.

(** ** The entity extractor *)

Module ProcessorFacts.
Import Re Float ReFacts FloatFacts VoiceCommandProcessor.

Lemma mapr_float_total l :
  Forall numeral l ->
  exists keys, mapr float_of_text l = Ok keys
    /\ Forall2 (fun m k => float_of_text m = Ok k) l keys.
Proof.
  induction 1 as [|m l Hm Hl (keys & IH & Hall)]; simpl.
  - exists []. split; [reflexivity|constructor].
  - destruct (float_of_numeral m Hm) as [k Hk]. rewrite Hk, IH. simpl.
    exists (k :: keys). split; [reflexivity|]. constructor; assumption.
Qed.

(** [max] returns an element that no element exceeds. *)
Lemma max_from_spec l : forall best,
  max_from gt best l ∈ best :: l
  /\ forall x, x ∈ best :: l -> gt x (max_from gt best l) = false.
Proof.
  induction l as [|y l IH]; simpl; intros best.
  - split; [left|]. intros x Hx. apply list_elem_of_singleton in Hx as ->.
    apply gt_irrefl.
  - destruct (IH (if gt y best then y else best)) as [Hin Hmax].
    split.
    + apply elem_of_cons in Hin as [Hin|Hin].
      * rewrite Hin. destruct (gt y best); [right; left|left].
      * right; right; exact Hin.
    + intros x Hx. destruct (gt y best) eqn:E.
      * apply elem_of_cons in Hx as [->|Hx]; [|exact (Hmax x Hx)].
        apply not_gt_trans with y; [apply gt_not_gt, E|].
        apply Hmax. left.
      * apply elem_of_cons in Hx as [->|Hx]; [apply Hmax; left|].
        apply elem_of_cons in Hx as [->|Hx].
        -- apply not_gt_trans with best; [exact E|]. apply Hmax. left.
        -- apply Hmax. right. exact Hx.
Qed.

(** The pattern loop stops at the first pattern with a match. *)
Lemma first_pattern_match_none patterns t :
  first_pattern_match patterns t = None
  <-> Forall (fun p => findall p t = []) patterns.
Proof.
  induction patterns as [|p ps IH]; simpl.
  - split; [constructor|reflexivity].
  - destruct (findall p t) as [|m ms] eqn:E.
    + rewrite IH. split; [constructor; assumption|].
      intros H. apply Forall_cons in H as [_ H]. exact H.
    + split; [discriminate|]. intros H. apply Forall_cons in H as [H _].
      congruence.
Qed.

Lemma first_pattern_match_first before p after t m ms :
  Forall (fun q => findall q t = []) before ->
  findall p t = m :: ms ->
  first_pattern_match (before ++ p :: after) t = Some m.
Proof.
  induction 1 as [|q qs Hq Hqs IH]; simpl; intros Hp.
  - rewrite Hp. reflexivity.
  - rewrite Hq. auto.
Qed.

Lemma first_pattern_match_numeral patterns t m :
  Forall captures_numeral patterns ->
  first_pattern_match patterns t = Some m -> numeral m.
Proof.
  induction 1 as [|p ps Hp Hps IH]; simpl; [discriminate|].
  destruct (findall p t) as [|m' ms] eqn:E; [exact IH|].
  intros [= <-]. pose proof (findall_numerals p t Hp) as H.
  rewrite E in H. apply Forall_cons in H as [H _]. exact H.
Qed.

(** Extraction of the amount never raises. *)
Lemma extract_amount_total t : exists amount, extract_amount t = Ok amount.
Proof.
  unfold extract_amount.
  destruct (first_pattern_match amount_patterns t) as [m|] eqn:E.
  - apply first_pattern_match_numeral in E; [|apply captures_amount_patterns].
    destruct (float_of_numeral m E) as [x ->]. simpl. eauto.
  - unfold largest_number.
    destruct (mapr_float_total (findall bare_number t)) as (keys & -> & _).
    + apply findall_numerals, captures_bare.
    + simpl. destruct keys; eauto.
Qed.

Lemma first_category_cons keyword category table t :
  first_category ((keyword, category) :: table) t
  = if contains t keyword then Some category else first_category table t.
Proof. reflexivity. Qed.

Lemma first_category_none table t :
  Forall (fun kc => contains t (fst kc) = false) table ->
  first_category table t = None.
Proof.
  induction 1 as [|[k c] table Hk Ht IH]; [reflexivity|].
  rewrite first_category_cons. simpl in Hk. rewrite Hk. exact IH.
Qed.

(** The dictionary the [add_expense] branch builds from the amount and
    the keyword category. *)
Lemma add_expense_entities t amount :
  extract_amount t = Ok amount ->
  exists entities,
    extract_entities_rule_based t "add_expense" = Ok entities
    /\ entities !! "amount"%string = VFloat <$> amount
    /\ entities !! "category"%string
       = VStr <$> match first_category categories t with
                  | Some c => Some c
                  | None => category_of_amount <$> amount
                  end.
Proof.
  intros H. unfold extract_entities_rule_based.
  change (String.eqb "add_expense" "create_plan") with false.
  change (String.eqb "add_expense" "add_expense") with true.
  cbv iota. rewrite H. unfold bindr.
  destruct (first_category categories t) as [c|], amount as [x|];
    unfold set_opt; cbn [fmap option_fmap option_map];
    simplify_map_eq; eexists; (split; [reflexivity|]);
    simplify_map_eq; split; reflexivity.
Qed.

End ProcessorFacts.

(** ** Claims about the rule-based processor *)

Module CommandClaims.
Import Re Float ReFacts FloatFacts VoiceCommandProcessor ProcessorFacts.

Lemma largest_number_spec l :
  Forall numeral l -> l <> [] ->
  exists amount,
    largest_number l = Ok (Some amount)
    /\ (exists m, m ∈ l /\ float_of_text m = Ok amount)
    /\ (forall m x, m ∈ l -> float_of_text m = Ok x -> gt x amount = false).
Proof.
  intros Hl Hne. unfold largest_number.
  destruct (mapr_float_total l Hl) as (keys & -> & Hkeys). simpl.
  destruct Hkeys as [|m k l keys Hm Hrest]; [contradiction|].
  destruct (max_from_spec keys k) as [Hin Hmax].
  exists (max_from gt k keys). split; [reflexivity|]. split.
  - assert (Hall : Forall2 (fun m k => float_of_text m = Ok k)
                     (m :: l) (k :: keys)) by (constructor; assumption).
    apply list_elem_of_lookup in Hin as [i Hi].
    destruct (Forall2_lookup_r _ _ _ _ _ Hall Hi) as (m' & Hm' & Hf).
    exists m'. split; [|exact Hf]. eapply list_elem_of_lookup_2, Hm'.
  - intros m' x Hin' Hx. apply Hmax.
    assert (Hall : Forall2 (fun m k => float_of_text m = Ok k)
                     (m :: l) (k :: keys)) by (constructor; assumption).
    apply list_elem_of_lookup in Hin' as [i Hi].
    destruct (Forall2_lookup_l _ _ _ _ _ Hall Hi) as (k' & Hk' & Hf).
    rewrite Hx in Hf. injection Hf as ->.
    eapply list_elem_of_lookup_2, Hk'.
Qed.

(** C1 (as the code has it).  The first example utterance is classified
    [add_expense] with amount 60 and category food.  The second one scores
    3 for [create_plan] (one keyword and the bonus of 2) and 4 for
    [add_expense] (one keyword and the bonus of 3), so it is classified
    [add_expense], with amount 2000 and category entertainment; the
    entities destination 北京, days 3 and budget 2000 are what the
    extractor yields for that text under the intent [create_plan]. *)
Theorem rule_based_example_vectors :
  (exists c,
     fallback_rule_based_processing expense_utterance = Ok c
     /\ intent c = "add_expense"%string
     /\ entities c = {[ "amount"%string := VFloat (of_Z 60);
                        "category"%string := VStr (u "food") ]})
  /\ intent_scores_of plan_utterance
     = [("create_plan"%string, 3); ("add_expense"%string, 4)]
  /\ (exists c,
        fallback_rule_based_processing plan_utterance = Ok c
        /\ intent c = "add_expense"%string
        /\ entities c = {[ "amount"%string := VFloat (of_Z 2000);
                           "category"%string := VStr (u "entertainment") ]})
  /\ extract_entities_rule_based plan_utterance "create_plan"
     = Ok {[ "destination"%string := VStr (u "北京");
             "days"%string := VInt 3;
             "budget"%string := VInt 2000 ]}.
Proof.
  split; [|split; [|split]].
  - eexists. split; [vm_compute; reflexivity|].
    split; vm_compute; reflexivity.
  - vm_compute. reflexivity.
  - eexists. split; [vm_compute; reflexivity|].
    split; vm_compute; reflexivity.
  - vm_compute. reflexivity.
Qed.

(** Against C1 as stated: the second example utterance is not classified
    [create_plan], and the result carries none of the entities of a plan. *)
Lemma plan_utterance_is_expense :
  exists c,
    fallback_rule_based_processing plan_utterance = Ok c
    /\ intent c = "add_expense"%string
    /\ intent c <> "create_plan"%string
    /\ entities c !! "destination"%string = None
    /\ entities c !! "days"%string = None
    /\ entities c !! "budget"%string = None.
Proof.
  eexists. split; [vm_compute; reflexivity|].
  split; [reflexivity|]. split; [discriminate|].
  repeat split; vm_compute; reflexivity.
Qed.

(** C7.  A description that contains both 门票 and 车 gets the category
    entertainment, never transportation: 门票 is the first keyword of the
    table and the first keyword found decides. *)
Theorem ticket_before_vehicle t :
  contains t (u "门票") = true ->
  contains t (u "车") = true ->
  exists entities,
    extract_entities_rule_based t "add_expense" = Ok entities
    /\ entities !! "category"%string = Some (VStr (u "entertainment"))
    /\ entities !! "category"%string <> Some (VStr (u "transportation")).
Proof.
  intros Hticket _.
  destruct (extract_amount_total t) as [amount Ha].
  destruct (add_expense_entities t amount Ha) as (entities & He & _ & Hc).
  exists entities. split; [exact He|].
  assert (Hfirst : first_category categories t = Some (u "entertainment")).
  { change categories
      with ((u "门票", u "entertainment") :: tail categories).
    rewrite first_category_cons, Hticket. reflexivity. }
  rewrite Hfirst in Hc. rewrite Hc. split; [reflexivity|].
  vm_compute. discriminate.
Qed.

Lemma ticket_before_vehicle_witness :
  contains (u "门票和打车一共100元") (u "门票") = true
  /\ contains (u "门票和打车一共100元") (u "车") = true
  /\ exists entities,
       extract_entities_rule_based (u "门票和打车一共100元") "add_expense"
       = Ok entities
       /\ entities !! "category"%string = Some (VStr (u "entertainment"))
       /\ entities !! "category"%string
          <> Some (VStr (u "transportation")).
Proof.
  split; [reflexivity|]. split; [reflexivity|].
  apply (ticket_before_vehicle (u "门票和打车一共100元")); reflexivity.
Defined.

(** C8.  When none of the four amount patterns has a match and the text
    holds a bare number, the amount is the largest of the bare numbers (as
    floats: it is the value of one of them and none exceeds it).  When a
    pattern has a match and no earlier pattern has one, the amount is the
    value of the first match of that pattern. *)
Theorem amount_selection t :
  (Forall (fun p => findall p t = []) amount_patterns ->
   findall bare_number t <> [] ->
   exists amount entities,
     extract_entities_rule_based t "add_expense" = Ok entities
     /\ entities !! "amount"%string = Some (VFloat amount)
     /\ (exists m, m ∈ findall bare_number t /\ float_of_text m = Ok amount)
     /\ (forall m x, m ∈ findall bare_number t ->
           float_of_text m = Ok x -> gt x amount = false))
  /\ (forall before p after m ms,
        amount_patterns = before ++ p :: after ->
        Forall (fun q => findall q t = []) before ->
        findall p t = m :: ms ->
        exists amount entities,
          extract_entities_rule_based t "add_expense" = Ok entities
          /\ float_of_text m = Ok amount
          /\ entities !! "amount"%string = Some (VFloat amount)).
Proof.
  split.
  - intros Hnone Hsome.
    destruct (largest_number_spec (findall bare_number t))
      as (amount & Hl & Hm & Hmax); [|exact Hsome|].
    { apply findall_numerals, captures_bare. }
    assert (Ha : extract_amount t = Ok (Some amount)).
    { unfold extract_amount.
      apply first_pattern_match_none in Hnone. rewrite Hnone. exact Hl. }
    destruct (add_expense_entities t _ Ha) as (entities & He & Hamt & _).
    exists amount, entities. auto.
  - intros before p after m ms Hsplit Hbefore Hp.
    pose proof (first_pattern_match_first before p after t m ms Hbefore Hp)
      as Hfirst.
    rewrite <- Hsplit in Hfirst.
    pose proof (first_pattern_match_numeral _ _ _
                  captures_amount_patterns Hfirst) as Hnum.
    destruct (float_of_numeral m Hnum) as [amount Hf].
    assert (Ha : extract_amount t = Ok (Some amount)).
    { unfold extract_amount. rewrite Hfirst, Hf. reflexivity. }
    destruct (add_expense_entities t _ Ha) as (entities & He & Hamt & _).
    exists amount, entities. auto.
Qed.

Lemma amount_selection_witness :
  (Forall (fun p => findall p (u "12 和 7.5 还有 300.25") = [])
          amount_patterns
   /\ findall bare_number (u "12 和 7.5 还有 300.25") <> []
   /\ exists amount entities,
        extract_entities_rule_based (u "12 和 7.5 还有 300.25") "add_expense"
        = Ok entities
        /\ entities !! "amount"%string = Some (VFloat amount)
        /\ (exists m, m ∈ findall bare_number (u "12 和 7.5 还有 300.25")
                      /\ float_of_text m = Ok amount)
        /\ (forall m x, m ∈ findall bare_number (u "12 和 7.5 还有 300.25") ->
              float_of_text m = Ok x -> gt x amount = false))
  /\ (findall (Seq (Group number) (word (u "元"))) (u "花了60，共100块") = []
      /\ findall (Seq (word (u "花了")) (Group number)) (u "花了60，共100块")
         = [u "60"]
      /\ exists amount entities,
           extract_entities_rule_based (u "花了60，共100块") "add_expense"
           = Ok entities
           /\ float_of_text (u "60") = Ok amount
           /\ entities !! "amount"%string = Some (VFloat amount)).
Proof.
  split.
  - split; [repeat constructor|]. split; [vm_compute; discriminate|].
    apply (proj1 (amount_selection (u "12 和 7.5 还有 300.25")));
      [repeat constructor | vm_compute; discriminate].
  - split; [reflexivity|]. split; [reflexivity|].
    apply (proj2 (amount_selection (u "花了60，共100块"))
             [Seq (Group number) (word (u "元"))]
             (Seq (word (u "花了")) (Group number))
             [Seq (word (u "费用")) (Group number);
              Seq (Group number) (word (u "块"))]
             (u "60") []);
      [reflexivity | repeat constructor | reflexivity].
Defined.

(** C9.  When no keyword of the category table occurs in the description,
    the category follows from the amount alone: above 500 accommodation,
    above 100 and at most 500 entertainment, at most 100 food; without an
    amount there is no category. *)
Theorem category_from_amount t :
  Forall (fun kc => contains t (fst kc) = false) categories ->
  exists entities,
    extract_entities_rule_based t "add_expense" = Ok entities
    /\ match entities !! "amount"%string with
       | Some (VFloat amount) =>
         (gt amount (of_Z 500) = true ->
          entities !! "category"%string = Some (VStr (u "accommodation")))
         /\ (gt amount (of_Z 500) = false -> gt amount (of_Z 100) = true ->
             entities !! "category"%string
             = Some (VStr (u "entertainment")))
         /\ (gt amount (of_Z 100) = false ->
             entities !! "category"%string = Some (VStr (u "food")))
       | Some _ => False
       | None => entities !! "category"%string = None
       end.
Proof.
  intros Hnone.
  destruct (extract_amount_total t) as [amount Ha].
  destruct (add_expense_entities t amount Ha) as (entities & He & Hamt & Hc).
  rewrite (first_category_none _ _ Hnone) in Hc.
  exists entities. split; [exact He|]. rewrite Hamt, Hc.
  destruct amount as [a|]; simpl; [|reflexivity].
  unfold category_of_amount.
  destruct (gt a (of_Z 500)) eqn:E500.
  - repeat split; [discriminate|].
    intros E100. exfalso.
    assert (H : gt (of_Z 500) (of_Z 100) = false).
    { apply not_gt_trans with a; [apply gt_not_gt, E500|exact E100]. }
    vm_compute in H. discriminate.
  - destruct (gt a (of_Z 100)) eqn:E100; repeat split; discriminate.
Qed.

Lemma category_from_amount_witness :
  Forall (fun kc => contains (u "一共600") (fst kc) = false) categories
  /\ exists entities,
       extract_entities_rule_based (u "一共600") "add_expense" = Ok entities
       /\ match entities !! "amount"%string with
          | Some (VFloat amount) =>
            (gt amount (of_Z 500) = true ->
             entities !! "category"%string
             = Some (VStr (u "accommodation")))
            /\ (gt amount (of_Z 500) = false ->
                gt amount (of_Z 100) = true ->
                entities !! "category"%string
                = Some (VStr (u "entertainment")))
            /\ (gt amount (of_Z 100) = false ->
                entities !! "category"%string = Some (VStr (u "food")))
          | Some _ => False
          | None => entities !! "category"%string = None
          end.
Proof.
  split; [repeat constructor|].
  apply (category_from_amount (u "一共600")). repeat constructor.
Defined.

End CommandClaims.

(** ** The frame loop *)

Module FrameFacts.
Import VoiceRecognitionService.

Lemma run_unfold data off st :
  (off < length data)%nat ->
  run data off st =
    let end_offset := Nat.min (off + frame_size) (length data) in
    let buf := slice data off end_offset in
    let status := if is_empty buf then STATUS_LAST_FRAME else st in
    let sent :=
      if status =? STATUS_FIRST_FRAME then [Frame 0 buf]
      else if status =? STATUS_CONTINUE_FRAME then [Frame 1 buf]
      else [] in
    let status :=
      if status =? STATUS_FIRST_FRAME then STATUS_CONTINUE_FRAME
      else status in
    if (length data <=? end_offset)%nat
    then sent ++ [Frame 2 buf]
    else sent ++ run data end_offset status.
Proof.
  intros H. simp run.
  destruct (lt_dec off (length data)) as [l|n]; [|contradiction].
  reflexivity.
Qed.

Lemma slice_nonempty data a b :
  (a < b)%nat -> (b <= length data)%nat -> is_empty (slice data a b) = false.
Proof.
  intros Hab Hb. unfold slice.
  destruct (take (b - a) (drop a data)) as [|x l] eqn:E; [|reflexivity].
  apply (f_equal length) in E. rewrite length_take, length_drop in E.
  simpl in E. lia.
Qed.

(** The last round of the loop: the rest of the buffer goes out twice,
    in a frame with the running status and in the frame with status 2. *)
Lemma run_last data off st :
  (off < length data)%nat -> (length data <= off + frame_size)%nat ->
  st = STATUS_FIRST_FRAME \/ st = STATUS_CONTINUE_FRAME ->
  run data off st = [Frame st (drop off data); Frame 2 (drop off data)].
Proof.
  intros Hoff Hlast Hst. rewrite run_unfold by exact Hoff. cbv zeta.
  rewrite Nat.min_r by exact Hlast.
  rewrite slice_nonempty by lia. rewrite Nat.leb_refl.
  unfold slice. rewrite take_ge by (rewrite length_drop; lia).
  destruct Hst as [-> | ->]; reflexivity.
Qed.

(** Any earlier round: one full frame, then the loop goes on with the
    status [continue]. *)
Lemma run_more data off st :
  (off + frame_size < length data)%nat ->
  st = STATUS_FIRST_FRAME \/ st = STATUS_CONTINUE_FRAME ->
  run data off st
  = Frame st (take frame_size (drop off data))
      :: run data (off + frame_size) STATUS_CONTINUE_FRAME.
Proof.
  intros Hmore Hst. rewrite run_unfold by lia. cbv zeta.
  rewrite Nat.min_l by lia.
  rewrite slice_nonempty by (unfold frame_size in *; lia).
  replace (length data <=? off + frame_size)%nat with false
    by (symmetry; apply Nat.leb_gt; lia).
  unfold slice. rewrite Nat.add_comm, Nat.add_sub.
  destruct Hst as [-> | ->]; reflexivity.
Qed.

(** The frames of the loop started at [off] with status [st]. *)
Lemma run_frames data : forall n off st,
  (length data - off <= n * frame_size)%nat ->
  (off < length data)%nat ->
  st = STATUS_FIRST_FRAME \/ st = STATUS_CONTINUE_FRAME ->
  exists body buf,
    run data off st = body ++ [Frame STATUS_LAST_FRAME buf]
    /\ map status body
       = st :: repeat STATUS_CONTINUE_FRAME (length body - 1)
    /\ length body = ((length data - off + (frame_size - 1)) / frame_size)%nat
    /\ concat (map audio body) = drop off data
    /\ (forall i f, body !! i = Some f ->
          audio f = take frame_size (drop (off + i * frame_size) data))
    /\ last (map audio body) = Some buf
    /\ buf = drop (off + (length body - 1) * frame_size) data.
Proof.
  induction n as [|n IH]; intros off st Hn Hoff Hst; [simpl in Hn; lia|].
  destruct (le_lt_dec (length data) (off + frame_size)) as [Hlast|Hmore].
  - exists [Frame st (drop off data)], (drop off data).
    rewrite run_last by assumption.
    split; [reflexivity|]. split; [reflexivity|].
    split.
    { cbn [length]. apply Nat.div_unique with (length data - off - 1)%nat;
        unfold frame_size in *; lia. }
    split; [simpl; apply app_nil_r|].
    split; [|split; [reflexivity|]].
    + intros [|i] f Hf; [|discriminate]. injection Hf as <-. simpl.
      rewrite Nat.add_0_r, take_ge; [reflexivity|rewrite length_drop; lia].
    + cbn [length]. rewrite Nat.sub_diag, Nat.mul_0_l, Nat.add_0_r.
      reflexivity.
  - destruct (IH (off + frame_size)%nat STATUS_CONTINUE_FRAME)
      as (body & buf & Hrun & Hstat & Hlen & Hcat & Hchunk & Hbuf & Hdrop);
      [unfold frame_size in *; lia | lia | right; reflexivity |].
    exists (Frame st (take frame_size (drop off data)) :: body), buf.
    rewrite run_more, Hrun by assumption.
    assert (Hpos : (0 < length body)%nat).
    { rewrite Hlen. apply Nat.div_str_pos. unfold frame_size in *. lia. }
    split; [reflexivity|]. split.
    { simpl. rewrite Hstat. f_equal. rewrite Nat.sub_0_r.
      destruct (length body); [lia|]. simpl. rewrite Nat.sub_0_r.
      reflexivity. }
    split.
    { cbn [length]. rewrite Hlen.
      replace (length data - off + (frame_size - 1))%nat
        with (length data - (off + frame_size) + (frame_size - 1)
              + 1 * frame_size)%nat by (unfold frame_size in *; lia).
      rewrite Nat.div_add by (unfold frame_size; lia). lia. }
    split.
    { simpl. rewrite Hcat, <- drop_drop. apply take_drop. }
    split.
    { intros [|i] f Hf.
      - injection Hf as <-. simpl. rewrite Nat.add_0_r. reflexivity.
      - simpl in Hf. rewrite (Hchunk i f Hf). do 2 f_equal. lia. }
    split; [simpl map; rewrite last_cons, Hbuf; reflexivity|].
    rewrite Hdrop. cbn [length]. f_equal. unfold frame_size. lia.
Qed.

End FrameFacts.

(** ** Claims about the recognition client *)

Module RecognitionClaims.
Import Float VoiceRecognitionService FrameFacts AudioFileManager.

(** C2 (as the code has it).  For a non-empty buffer of length L the loop
    sends ceil(L/1280) non-final frames, the first with status [first] and
    the others with status [continue]; frame number i carries the bytes
    from offset 1280*i on, at most 1280 of them, so the non-final frames
    carry every byte of the buffer once and in order; one frame with
    status [last] follows and ends the sequence. *)
Theorem frame_sequence data :
  (0 < length data)%nat ->
  exists body final,
    send_frames data = body ++ [final]
    /\ status final = STATUS_LAST_FRAME
    /\ Forall (fun f => status f <> STATUS_LAST_FRAME) body
    /\ map status body
       = STATUS_FIRST_FRAME
           :: repeat STATUS_CONTINUE_FRAME (length body - 1)
    /\ length body = ((length data + (frame_size - 1)) / frame_size)%nat
    /\ concat (map audio body) = data
    /\ (forall i f, body !! i = Some f ->
          audio f = take frame_size (drop (i * frame_size) data)).
Proof.
  intros Hpos. unfold send_frames.
  destruct (run_frames data (length data) 0 STATUS_FIRST_FRAME)
    as (body & buf & Hrun & Hstat & Hlen & Hcat & Hchunk & _);
    [unfold frame_size; lia | exact Hpos | left; reflexivity |].
  exists body, (Frame STATUS_LAST_FRAME buf).
  split; [exact Hrun|]. split; [reflexivity|]. split.
  { apply (Forall_map status (fun s => s <> STATUS_LAST_FRAME)).
    rewrite Hstat. constructor; [discriminate|].
    generalize (length body - 1)%nat as k.
    induction k; simpl; constructor; [discriminate|assumption]. }
  split; [exact Hstat|]. split; [rewrite Hlen, Nat.sub_0_r; reflexivity|].
  split; [exact Hcat|exact Hchunk].
Qed.

Lemma frame_sequence_witness :
  (0 < length [7; 8; 9])%nat
  /\ exists body final,
       send_frames [7; 8; 9] = body ++ [final]
       /\ status final = STATUS_LAST_FRAME
       /\ Forall (fun f => status f <> STATUS_LAST_FRAME) body
       /\ map status body
          = STATUS_FIRST_FRAME
              :: repeat STATUS_CONTINUE_FRAME (length body - 1)
       /\ length body
          = ((length [7; 8; 9] + (frame_size - 1)) / frame_size)%nat
       /\ concat (map audio body) = [7; 8; 9]
       /\ (forall i f, body !! i = Some f ->
             audio f = take frame_size (drop (i * frame_size) [7; 8; 9])).
Proof.
  split; [simpl; lia|]. apply (frame_sequence [7; 8; 9]). simpl; lia.
Defined.

(** Against C2 as stated: a buffer of one byte gives one non-final frame
    where floor(1/1280) is 0, and the byte is sent twice. *)
Lemma single_byte_frames :
  send_frames [7] = [Frame 0 [7]; Frame 2 [7]]
  /\ length (filter (fun f => status f <> STATUS_LAST_FRAME)
                    (send_frames [7])) = 1%nat
  /\ (length [7] / frame_size)%nat = 0%nat
  /\ concat (map audio (send_frames [7])) = [7; 7].
Proof. repeat split. Qed.

(** X1.  The frame with status [last] carries the bytes of the non-final frame
    before it once more; it is never empty. *)
Lemma final_frame_repeats_last_chunk data :
  (0 < length data)%nat ->
  exists body final,
    send_frames data = body ++ [final]
    /\ status final = STATUS_LAST_FRAME
    /\ last (map audio body) = Some (audio final)
    /\ audio final
       = drop ((length data - 1) / frame_size * frame_size) data.
Proof.
  intros Hpos. unfold send_frames.
  destruct (run_frames data (length data) 0 STATUS_FIRST_FRAME)
    as (body & buf & Hrun & Hstat & Hlen & Hcat & Hchunk & Hlast & Hdrop);
    [unfold frame_size; lia | exact Hpos | left; reflexivity |].
  exists body, (Frame STATUS_LAST_FRAME buf).
  split; [exact Hrun|]. split; [reflexivity|]. split; [exact Hlast|].
  simpl. rewrite Hdrop, Hlen, Nat.sub_0_r. f_equal.
  replace (length data + (frame_size - 1))%nat
    with (length data - 1 + 1 * frame_size)%nat
    by (unfold frame_size; lia).
  rewrite Nat.div_add by (unfold frame_size; lia).
  rewrite Nat.add_sub. reflexivity.
Qed.

Lemma forward_refl svc : forward svc svc.
Proof.
  split; [auto|]. split; [auto|]. exists []. symmetry. apply app_nil_r.
Qed.

Lemma forward_trans a b c : forward a b -> forward b c -> forward a c.
Proof.
  intros (Hc1 & He1 & f1 & Hr1) (Hc2 & He2 & f2 & Hr2).
  split; [auto|]. split; [auto|].
  exists (f1 ++ f2). rewrite Hr2, Hr1, app_assoc. reflexivity.
Qed.

Lemma on_message_forward svc m : forward svc (fst (on_message svc m)).
Proof.
  destruct svc as [a k s r c e].
  destruct m as [err|code st [|ws|err]]; simpl;
    try destruct (code =? 0); simpl; try destruct (st =? 2); simpl;
    (split; [auto|]; split; [try discriminate; auto|]);
    solve [ exists []; simpl; symmetry; apply app_nil_r
          | eexists; reflexivity ].
Qed.

(** A message that changes a flag closes the channel. *)
Lemma on_message_closes svc m :
  recognition_complete (fst (on_message svc m)) <> recognition_complete svc
  \/ recognition_error (fst (on_message svc m)) <> recognition_error svc ->
  snd (on_message svc m) = true.
Proof.
  destruct svc as [a k s r c e].
  destruct m as [err|code st [|ws|err]]; simpl;
    try destruct (code =? 0); simpl; try destruct (st =? 2); simpl;
    try reflexivity; intros [H|H]; contradiction.
Qed.

Lemma dispatch_forward pcm svc ev : forward svc (fst (dispatch pcm svc ev)).
Proof.
  destruct ev as [|m|err|]; simpl; try apply forward_refl.
  - pose proof (on_message_forward svc m) as H.
    destruct (on_message svc m) as [svc' closed]. exact H.
  - split; [auto|]. split; [discriminate|].
    exists []. simpl. symmetry. apply app_nil_r.
Qed.

Lemma run_forever_forward pcm evs : forall svc,
  forward svc (fst (run_forever pcm svc evs)).
Proof.
  induction evs as [|ev evs IH]; intros svc; simpl; [apply forward_refl|].
  pose proof (dispatch_forward pcm svc ev) as H1.
  destruct (dispatch pcm svc ev) as [svc1 out1].
  pose proof (IH svc1) as H2.
  destruct (run_forever pcm svc1 evs) as [svc2 out2].
  exact (forward_trans _ _ _ H1 H2).
Qed.

Lemma request_error_truthy code :
  truthy (Some (u "请求错误：" ++ str_of_Z code)) = true.
Proof.
  destruct (u "请求错误：") as [|c l] eqn:E; [|reflexivity].
  vm_compute in E. discriminate.
Qed.

(** A recorded error stays one through a callback that records no empty
    error message. *)
Lemma dispatch_keeps_error pcm svc ev :
  records_empty_error ev = false ->
  truthy (recognition_error svc) = true ->
  truthy (recognition_error (fst (dispatch pcm svc ev))) = true.
Proof.
  destruct svc as [a k s r c e].
  destruct ev as [|[err|code st p]|err|].
  - simpl. intros _ H. exact H.
  - simpl. destruct err; [discriminate|]. intros _ _. reflexivity.
  - unfold dispatch, on_message, records_empty_error.
    destruct (code =? 0) eqn:Ec; cbn [negb].
    + destruct p as [|ws|[|x err]]; try discriminate;
        try destruct (st =? 2); simpl; intros _ H;
        first [exact H | reflexivity].
    + intros _ _. cbn [fst set_error recognition_error].
      apply request_error_truthy.
  - simpl. destruct err; [discriminate|]. intros _ _. reflexivity.
  - simpl. intros _ H. exact H.
Qed.

Lemma run_forever_keeps_error pcm evs : forall svc,
  Forall (fun ev => records_empty_error ev = false) evs ->
  truthy (recognition_error svc) = true ->
  truthy (recognition_error (fst (run_forever pcm svc evs))) = true.
Proof.
  induction evs as [|ev evs IH]; intros svc Hevs He; simpl; [exact He|].
  apply Forall_cons in Hevs as [Hev Hevs].
  pose proof (dispatch_keeps_error pcm svc ev Hev He) as H1.
  destruct (dispatch pcm svc ev) as [svc1 out1].
  pose proof (IH svc1 Hevs H1) as H2.
  destruct (run_forever pcm svc1 evs) as [svc2 out2]. exact H2.
Qed.

(** C3 (as the code has it).  Whatever the channel delivers, the complete
    flag, once set, stays set, the error field, once assigned, is never
    reset to [None], and the transcript keeps the text it has (callbacks
    append to it or leave it).  The code reads the error flag by its
    truth value: a recorded (non-empty) error stays recorded as long as
    no later callback records an error with an empty message; such a
    message overwrites it and counts as no error.  A message that
    changes a flag makes the handler close the channel; the handler does
    not look at the flags, so a message that is still delivered after
    [complete] or an error is handled like any other. *)
Theorem session_moves_forward pcm svc evs :
  let svc' := fst (run_forever pcm svc evs) in
  (recognition_complete svc = true -> recognition_complete svc' = true)
  /\ (recognition_error svc <> None -> recognition_error svc' <> None)
  /\ (Forall (fun ev => records_empty_error ev = false) evs ->
      truthy (recognition_error svc) = true ->
      truthy (recognition_error svc') = true)
  /\ (exists fragment,
        recognition_result svc' = recognition_result svc ++ fragment)
  /\ (forall m,
        recognition_complete (fst (on_message svc m))
          <> recognition_complete svc
        \/ recognition_error (fst (on_message svc m))
          <> recognition_error svc ->
        snd (on_message svc m) = true).
Proof.
  intros svc'. destruct (run_forever_forward pcm evs svc) as (Hc & He & Hr).
  split; [exact Hc|]. split; [exact He|].
  split; [apply run_forever_keeps_error|]. split; [exact Hr|].
  intros m. apply on_message_closes.
Qed.

(** An error with an empty message overwrites a recorded error and counts
    as none: the recognition that completes afterwards is a success. *)
Lemma empty_error_counts_as_none :
  exists c d svc' out,
    transcribe_audio passthrough
      (Channel [Failed (u "reset by peer"); Failed [];
                Received (Envelope 0 2 (Words [[u "你好"]]))] None)
      slow_clock 1 configured [1; 2; 3]
    = Some (Success (u "你好") c d, svc', out)
    /\ recognition_error svc' = Some [].
Proof.
  do 4 eexists. split; vm_compute; reflexivity.
Qed.

(** Against C3 as stated: after completion, one more message with a word
    extends the transcript, and one with an error code sets the error flag
    as well. *)
Lemma message_after_completion :
  recognition_complete finished = true
  /\ recognition_result finished = u "你好"
  /\ recognition_result
       (fst (on_message finished (Envelope 0 1 (Words [[u "吗"]]))))
     = u "你好吗"
  /\ recognition_error (fst (on_message finished (Envelope 10165 1 NoPayload)))
     = Some (u "请求错误：10165")
  /\ recognition_complete
       (fst (on_message finished (Envelope 10165 1 NoPayload))) = true.
Proof. repeat split. Qed.



Lemma timed_out_not_failed e : timed_out <> failed e.
Proof. unfold timed_out, failed. vm_compute. discriminate. Qed.




Lemma try_formats_none lib formats audio_data :
  (forall fmt, fmt ∈ formats -> from_file lib (Some fmt) audio_data = None) ->
  try_formats lib formats audio_data = None.
Proof.
  induction formats as [|fmt formats IH]; simpl; intros H; [reflexivity|].
  rewrite (H fmt) by left. apply IH. intros f Hf. apply H. right. exact Hf.
Qed.

Lemma unsupported_format_eq :
  u "音频格式转换失败: " ++ u "无法识别音频格式" = unsupported_format.
Proof. vm_compute. reflexivity. Qed.

(** C5 (as the code has it).  [validate_audio_format] returns false for
    every input shorter than 44 bytes.  [_convert_audio_to_pcm] has no
    check of the length: it raises the unsupported-format error when none
    of the five formats nor the automatic detection decodes the input, and
    [transcribe_audio] then fails before any connection; an input that a
    decoder takes is converted whatever its length. *)
Theorem short_audio_handling audio_data :
  ((length audio_data < 44)%nat -> validate_audio_format audio_data = false)
  /\ (forall lib,
        PYDUB_AVAILABLE lib = true ->
        (forall fmt, fmt ∈ formats_to_try ->
           from_file lib (Some fmt) audio_data = None) ->
        from_file lib None audio_data = None ->
        convert_audio_to_pcm lib audio_data = Raise unsupported_format
        /\ forall chan clock fuel svc,
             truthy (api_key svc) = true ->
             truthy (api_secret svc) = true ->
             truthy (app_id svc) = true ->
             transcribe_audio lib chan clock fuel svc audio_data
             = Some (Failure (failed unsupported_format), svc, [Converted]))
  /\ (forall lib a pcm,
        PYDUB_AVAILABLE lib = true ->
        from_file lib (Some (u "webm")) audio_data = Some a ->
        raw_pcm lib a = Ok pcm ->
        convert_audio_to_pcm lib audio_data = Ok pcm).
Proof.
  split; [|split].
  - intros Hshort. unfold validate_audio_format.
    apply Nat.ltb_lt in Hshort. rewrite Hshort. reflexivity.
  - intros lib Hlib Hfmt Hauto.
    assert (Hconv : convert_audio_to_pcm lib audio_data
                    = Raise unsupported_format).
    { unfold convert_audio_to_pcm.
      rewrite Hlib, (try_formats_none _ _ _ Hfmt), Hauto.
      cbn [negb bindr]. rewrite unsupported_format_eq. reflexivity. }
    split; [exact Hconv|].
    intros chan clock fuel svc Hk Hs Ha. unfold transcribe_audio.
    rewrite Hk, Hs, Ha, Hconv. reflexivity.
  - intros lib a pcm Hlib Hwebm Hpcm. unfold convert_audio_to_pcm.
    rewrite Hlib.
    change formats_to_try with (u "webm" :: tail formats_to_try).
    cbn [negb try_formats]. rewrite Hwebm. simpl. rewrite Hpcm. reflexivity.
Qed.

Lemma short_audio_handling_witness :
  (length [1; 2; 3] < 44)%nat
  /\ validate_audio_format [1; 2; 3] = false
  /\ convert_audio_to_pcm undecodable [1; 2; 3] = Raise unsupported_format
  /\ transcribe_audio undecodable silent_peer slow_clock 1 configured
                      [1; 2; 3]
     = Some (Failure (failed unsupported_format), configured, [Converted])
  /\ convert_audio_to_pcm passthrough [1; 2; 3] = Ok [1; 2; 3].
Proof.
  destruct (short_audio_handling [1; 2; 3]) as (Hvalid & Hfail & Hok).
  split; [simpl; lia|]. split; [apply Hvalid; simpl; lia|].
  destruct (Hfail undecodable) as [Hconv Htrans]; try reflexivity.
  split; [exact Hconv|]. split; [apply Htrans; reflexivity|].
  apply (Hok passthrough [1; 2; 3]); reflexivity.
Defined.

(** Against C5 as stated: an input of three bytes fails validation, yet
    with a decoder that takes it the conversion yields PCM and the
    transcription succeeds. *)
Lemma short_input_is_transcribed :
  (length [1; 2; 3] < 44)%nat
  /\ validate_audio_format [1; 2; 3] = false
  /\ convert_audio_to_pcm passthrough [1; 2; 3] = Ok [1; 2; 3]
  /\ exists c d svc' out,
       transcribe_audio passthrough greeting_peer slow_clock 1 configured
                        [1; 2; 3]
       = Some (Success (u "你好世界") c d, svc', out).
Proof.
  split; [simpl; lia|]. split; [reflexivity|]. split; [reflexivity|].
  do 4 eexists. vm_compute. reflexivity.
Qed.

(** C6.  When the application id, the API key or the API secret is
    missing or empty, [transcribe_audio] returns the not-configured
    failure at once: no effect happens (no conversion, no URL, no
    connection) and the service object is unchanged. *)
Theorem missing_credentials lib chan clock fuel svc audio_data :
  truthy (app_id svc) = false
  \/ truthy (api_key svc) = false
  \/ truthy (api_secret svc) = false ->
  transcribe_audio lib chan clock fuel svc audio_data
  = Some (Failure not_configured, svc, []).
Proof.
  intros H. unfold transcribe_audio.
  destruct (truthy (api_key svc)), (truthy (api_secret svc)),
    (truthy (app_id svc)); simpl; try reflexivity.
  destruct H as [H|[H|H]]; discriminate.
Qed.

Lemma missing_credentials_witness :
  (truthy (app_id unconfigured) = false
   \/ truthy (api_key unconfigured) = false
   \/ truthy (api_secret unconfigured) = false)
  /\ transcribe_audio passthrough greeting_peer slow_clock 0 unconfigured
                      [1; 2; 3]
     = Some (Failure not_configured, unconfigured, []).
Proof.
  split; [right; left; reflexivity|].
  apply (missing_credentials passthrough greeting_peer slow_clock 0
           unconfigured [1; 2; 3]).
  right; left; reflexivity.
Defined.

(** C10.  A successful result reports the confidence 0.92 (the binary64
    number nearest to it) and the duration [len(audio_data) / 32000],
    computed from the length of the input as it was received; the text is
    the transcript, stripped. *)
Theorem success_confidence_and_duration
    lib chan clock fuel svc audio_data t c d svc' out :
  transcribe_audio lib chan clock fuel svc audio_data
  = Some (Success t c d, svc', out) ->
  c = round_binary64 (92 # 100)
  /\ c = Finite (8286623314361713 # 9007199254740992)
  /\ d = div_int (Z.of_nat (length audio_data)) 32000
  /\ t = strip (recognition_result svc').
Proof.
  assert (Hc : round_binary64 (92 # 100)
               = Finite (8286623314361713 # 9007199254740992))
    by (vm_compute; reflexivity).
  unfold transcribe_audio.
  remember (round_binary64 (92 # 100)) as conf eqn:Hconf.
  remember (div_int (Z.of_nat (length audio_data)) 32000) as dur eqn:Hdur.
  destruct (negb (truthy (api_key svc)) || negb (truthy (api_secret svc))
            || negb (truthy (app_id svc))); [discriminate|].
  destruct (convert_audio_to_pcm lib audio_data) as [pcm|e]; [|discriminate].
  destruct (run_forever pcm (reset svc) (events chan)) as [svc1 out1].
  destruct (run_raises chan); [discriminate|].
  destruct (wait clock (time clock 0%nat) svc1 1 fuel) as [[|]|];
    [discriminate| |discriminate].
  destruct (recognition_error svc1) as [[|x e]|]; [|discriminate|];
    intros [= <- <- <- <- _];
    (split; [reflexivity|]; split; [exact Hc|]; split; reflexivity).
Qed.

Lemma success_confidence_and_duration_witness :
  exists t c d svc' out,
    transcribe_audio passthrough greeting_peer slow_clock 1 configured
                     [1; 2; 3]
    = Some (Success t c d, svc', out)
    /\ c = round_binary64 (92 # 100)
    /\ c = Finite (8286623314361713 # 9007199254740992)
    /\ d = div_int (Z.of_nat (length [1; 2; 3])) 32000
    /\ t = strip (recognition_result svc').
Proof.
  do 5 eexists. split; [vm_compute; reflexivity|].
  eapply (success_confidence_and_duration passthrough greeting_peer
            slow_clock 1 configured [1; 2; 3]).
  vm_compute. reflexivity.
Defined.

End RecognitionClaims.

(** ** More on the frame loop *)

Module FrameProperties.
Import VoiceRecognitionService FrameFacts.

Lemma run_nothing data off st :
  (length data <= off)%nat -> run data off st = [].
Proof.
  intros H. simp run.
  destruct (lt_dec off (length data)) as [l|n]; [lia|reflexivity].
Qed.

(** X2.  Nothing at all is sent for an empty buffer, not even a frame with the
    status [last]; any other buffer gives frames. *)
Theorem no_frames_iff_empty data : send_frames data = [] <-> data = [].
Proof.
  split.
  - intros H. destruct data as [|b data]; [reflexivity|]. exfalso.
    destruct (run_frames (b :: data) (length (b :: data)) 0
                STATUS_FIRST_FRAME)
      as (body & buf & Hrun & _);
      [unfold frame_size; simpl; lia | simpl; lia | left; reflexivity |].
    unfold send_frames in H. rewrite H in Hrun.
    destruct body; discriminate.
  - intros ->. apply run_nothing. simpl. lia.
Qed.

(** X3.  Every frame that is sent, the one with the status [last] included,
    carries at least one byte and at most 1280. *)
Theorem frame_payload_bounds data f :
  f ∈ send_frames data ->
  (0 < length (audio f) <= frame_size)%nat.
Proof.
  intros Hf. destruct data as [|b data].
  - unfold send_frames in Hf. rewrite run_nothing in Hf by (simpl; lia).
    inversion Hf.
  - set (d := b :: data) in *.
    assert (Hpos : (0 < length d)%nat) by (simpl; lia).
    destruct (run_frames d (length d) 0 STATUS_FIRST_FRAME)
      as (body & buf & Hrun & _ & Hlen & _ & Hchunk & _ & Hbuf);
      [unfold frame_size; lia | exact Hpos | left; reflexivity |].
    rewrite Nat.sub_0_r in Hlen.
    pose proof (Nat.div_mod_eq (length d + (frame_size - 1)) frame_size)
      as Hdm.
    pose proof (Nat.mod_upper_bound (length d + (frame_size - 1)) frame_size)
      as Hub.
    rewrite <- Hlen in Hdm.
    unfold send_frames in Hf. rewrite Hrun in Hf.
    apply elem_of_app in Hf as [Hf|Hf].
    + apply list_elem_of_lookup in Hf as [i Hi].
      pose proof (lookup_lt_Some _ _ _ Hi) as Hlt.
      rewrite (Hchunk i f Hi), length_take, length_drop.
      unfold frame_size in *. lia.
    + apply list_elem_of_singleton in Hf as ->. simpl.
      rewrite Hbuf, length_drop. unfold frame_size in *. lia.
Qed.

End FrameProperties.

(** ** More on the receive handler and on [transcribe_audio] *)

Module SessionProperties.
Import Float VoiceRecognitionService AudioFileManager RecognitionClaims.

(** X4.  Messages with code 0 and decodable payloads: the transcript grows by
    their words, in the order of arrival, whatever their status. *)
Theorem transcript_accumulates pcm (ps : list (Z * list (list text))) :
  forall svc,
  recognition_result
    (fst (run_forever pcm svc
            (map (fun p => Received (Envelope 0 (fst p) (Words (snd p))))
                 ps)))
  = recognition_result svc
      ++ concat (map (fun p => concat (concat (snd p))) ps).
Proof.
  induction ps as [|[st ws] ps IH]; intros svc; simpl.
  - symmetry. apply app_nil_r.
  - destruct (st =? 2);
      match goal with
      | |- context [run_forever pcm ?s ?evs] =>
        specialize (IH s); destruct (run_forever pcm s evs) as [svc2 out2]
      end;
      simpl in *; rewrite IH; destruct svc; simpl; symmetry; apply app_assoc.
Qed.

(** X5.  The handler closes the channel exactly when it leaves the session
    terminal by its own doing: after a close the complete flag or the
    error flag is set, and without a close both flags are as before. *)
Theorem close_means_terminal svc m :
  (snd (on_message svc m) = true ->
   recognition_complete (fst (on_message svc m)) = true
   \/ recognition_error (fst (on_message svc m)) <> None)
  /\ (snd (on_message svc m) = false ->
      recognition_complete (fst (on_message svc m))
      = recognition_complete svc
      /\ recognition_error (fst (on_message svc m)) = recognition_error svc).
Proof.
  destruct svc as [a k s r c e].
  destruct m as [err|code st [|ws|err]]; simpl;
    try destruct (code =? 0); simpl; try destruct (st =? 2); simpl;
    (split; intros H);
    first [ discriminate H | left; reflexivity | right; discriminate
          | split; reflexivity ].
Qed.

(** X6.  Only a message with code 0 and status 2 whose payload decodes turns
    the complete flag on; it leaves the error flag alone. *)
Theorem complete_only_by_final_status svc m :
  recognition_complete svc = false ->
  recognition_complete (fst (on_message svc m)) = true ->
  (exists p, m = Envelope 0 2 p /\ forall e, p <> BadPayload e)
  /\ recognition_error (fst (on_message svc m)) = recognition_error svc.
Proof.
  destruct svc as [a k s r c e]. simpl. intros ->.
  destruct m as [err|code st [|ws|err]]; simpl;
    try (destruct (code =? 0) eqn:Ec; simpl);
    try (destruct (st =? 2) eqn:Es; simpl);
    try discriminate; intros _;
    apply Z.eqb_eq in Ec as ->; apply Z.eqb_eq in Es as ->;
    (split; [eexists; split; [reflexivity|discriminate]|reflexivity]).
Qed.

Lemma complete_only_by_final_status_witness :
  recognition_complete configured = false
  /\ (exists p, Envelope 0 2 (Words [[u "好"]]) = Envelope 0 2 p
                /\ forall e, p <> BadPayload e)
  /\ recognition_error
       (fst (on_message configured (Envelope 0 2 (Words [[u "好"]]))))
     = recognition_error configured.
Proof.
  split; [reflexivity|].
  apply (complete_only_by_final_status configured
           (Envelope 0 2 (Words [[u "好"]]))); reflexivity.
Defined.

(** X7.  What was recognised before plays no part: two service objects with
    the same credentials give the same result and the same effects. *)
Theorem previous_recognition_irrelevant
    lib chan clock fuel svc r c e audio_data :
  let svc2 := Service (app_id svc) (api_key svc) (api_secret svc) r c e in
  option_map (fun x => (fst (fst x), snd x))
             (transcribe_audio lib chan clock fuel svc audio_data)
  = option_map (fun x => (fst (fst x), snd x))
               (transcribe_audio lib chan clock fuel svc2 audio_data).
Proof.
  intros svc2. unfold transcribe_audio.
  change (api_key svc2) with (api_key svc).
  change (api_secret svc2) with (api_secret svc).
  change (app_id svc2) with (app_id svc).
  change (reset svc2) with (reset svc).
  destruct (negb (truthy (api_key svc)) || negb (truthy (api_secret svc))
            || negb (truthy (app_id svc))); [reflexivity|].
  destruct (convert_audio_to_pcm lib audio_data) as [pcm|msg];
    reflexivity.
Qed.

Lemma wait_result clock start svc : forall fuel i b,
  wait clock start svc i fuel = Some b ->
  if b
  then recognition_complete svc = false
       /\ truthy (recognition_error svc) = false
  else recognition_complete svc = true
       \/ truthy (recognition_error svc) = true.
Proof.
  induction fuel as [|fuel IH]; simpl; intros i b H; [discriminate|].
  destruct (recognition_complete svc) eqn:Ec; simpl in H.
  - injection H as <-. left. reflexivity.
  - destruct (truthy (recognition_error svc)) eqn:Ee; simpl in H.
    + injection H as <-. right. reflexivity.
    + destruct (elapsed_exceeds (time clock i) start).
      * injection H as <-. split; reflexivity.
      * apply IH in H. exact H.
Qed.

Lemma wait_terminal clock start svc i fuel :
  (0 < fuel)%nat ->
  recognition_complete svc = true \/ truthy (recognition_error svc) = true ->
  wait clock start svc i fuel = Some false.
Proof.
  intros Hfuel H. destruct fuel as [|fuel]; [lia|]. simpl.
  destruct H as [-> | ->]; [reflexivity|].
  rewrite andb_false_r. reflexivity.
Qed.

Lemma transcription_inj (a b : transcription) (s s' : service)
    (o o' : list effect) :
  Some (a, s, o) = Some (b, s', o') -> a = b /\ s = s' /\ o = o'.
Proof. intros H. inversion H. auto. Qed.

Lemma failure_inj a b : Failure a = Failure b -> a = b.
Proof. intros H. inversion H. reflexivity. Qed.

Lemma timed_out_not_unconfigured : timed_out <> not_configured.
Proof. vm_compute. discriminate. Qed.

(** X8.  An error reported through the channel decides the result even when
    the recognition was completed as well. *)
Theorem error_takes_precedence
    lib chan clock fuel svc audio_data pcm svc' out :
  truthy (api_key svc) = true ->
  truthy (api_secret svc) = true ->
  truthy (app_id svc) = true ->
  convert_audio_to_pcm lib audio_data = Ok pcm ->
  run_forever pcm (reset svc) (events chan) = (svc', out) ->
  run_raises chan = None ->
  truthy (recognition_error svc') = true ->
  (0 < fuel)%nat ->
  exists e,
    recognition_error svc' = Some e
    /\ transcribe_audio lib chan clock fuel svc audio_data
       = Some (Failure (failed e), svc',
               [Converted; UrlCreated; Connected] ++ out).
Proof.
  intros Hk Hs Ha Hconv Hrun Hraise He Hfuel.
  unfold transcribe_audio. rewrite Hk, Hs, Ha, Hconv. cbn [negb orb].
  rewrite Hrun, Hraise.
  rewrite (wait_terminal clock (time clock 0%nat) svc' 1 fuel Hfuel)
    by (right; exact He).
  destruct (recognition_error svc') as [[|x e]|]; try discriminate He.
  exists (x :: e). split; reflexivity.
Qed.

Lemma error_takes_precedence_witness :
  exists e,
    recognition_error
      (Service (Some (u "5f8a2c1d")) (Some (u "key")) (Some (u "secret"))
               (u "你好") true (Some (u "reset by peer")))
    = Some e
    /\ transcribe_audio passthrough
         (Channel [Received (Envelope 0 2 (Words [[u "你好"]]));
                   Failed (u "reset by peer")] None)
         slow_clock 1 configured [1; 2; 3]
       = Some (Failure (failed e),
               Service (Some (u "5f8a2c1d")) (Some (u "key"))
                       (Some (u "secret")) (u "你好") true
                       (Some (u "reset by peer")),
               [Converted; UrlCreated; Connected] ++ [CloseRequested]).
Proof.
  apply (error_takes_precedence passthrough
           (Channel [Received (Envelope 0 2 (Words [[u "你好"]]));
                     Failed (u "reset by peer")] None)
           slow_clock 1 configured [1; 2; 3] [1; 2; 3]);
    first [ vm_compute; reflexivity | lia ].
Defined.

(** X9.  A success is returned only with the complete flag set and no error
    recorded (an empty error message counts as none). *)
Theorem success_requires_completion
    lib chan clock fuel svc audio_data t c d svc' out :
  transcribe_audio lib chan clock fuel svc audio_data
  = Some (Success t c d, svc', out) ->
  recognition_complete svc' = true
  /\ truthy (recognition_error svc') = false.
Proof.
  unfold transcribe_audio.
  remember (round_binary64 (92 # 100)) as conf eqn:Hconf.
  remember (div_int (Z.of_nat (length audio_data)) 32000) as dur eqn:Hdur.
  destruct (negb (truthy (api_key svc)) || negb (truthy (api_secret svc))
            || negb (truthy (app_id svc))); [discriminate|].
  destruct (convert_audio_to_pcm lib audio_data) as [pcm|e]; [|discriminate].
  destruct (run_forever pcm (reset svc) (events chan)) as [svc1 out1].
  destruct (run_raises chan); [discriminate|].
  destruct (wait clock (time clock 0%nat) svc1 1 fuel) as [[|]|] eqn:Hw;
    [discriminate| |discriminate].
  apply wait_result in Hw.
  destruct (recognition_error svc1) as [[|x e]|] eqn:He; [|discriminate|];
    intros H; apply transcription_inj in H as (_ & <- & _);
    simpl in *;
    (destruct Hw as [Hw|Hw];
       [split; [exact Hw|rewrite He; reflexivity]|discriminate]).
Qed.

Lemma success_requires_completion_witness :
  recognition_complete
    (Service (Some (u "5f8a2c1d")) (Some (u "key")) (Some (u "secret"))
             (u "你好世界 ") true None) = true
  /\ truthy (recognition_error
       (Service (Some (u "5f8a2c1d")) (Some (u "key")) (Some (u "secret"))
                (u "你好世界 ") true None)) = false.
Proof.
  eapply (success_requires_completion passthrough greeting_peer slow_clock
            1 configured [1; 2; 3]).
  vm_compute. reflexivity.
Defined.

(** X10.  The timeout failure is returned only when the credentials were
    configured and the run left both flags unset. *)
Theorem timeout_only_when_unset
    lib chan clock fuel svc audio_data svc' out :
  transcribe_audio lib chan clock fuel svc audio_data
  = Some (Failure timed_out, svc', out) ->
  recognition_complete svc' = false
  /\ truthy (recognition_error svc') = false
  /\ truthy (api_key svc) = true
  /\ truthy (api_secret svc) = true
  /\ truthy (app_id svc) = true.
Proof.
  unfold transcribe_audio.
  remember (round_binary64 (92 # 100)) as conf eqn:Hconf.
  remember (div_int (Z.of_nat (length audio_data)) 32000) as dur eqn:Hdur.
  destruct (truthy (api_key svc)), (truthy (api_secret svc)),
    (truthy (app_id svc)); cbn [negb orb];
    try (intros H; apply transcription_inj in H as (H & _);
         apply failure_inj in H; symmetry in H;
         contradiction (timed_out_not_unconfigured H)).
  destruct (convert_audio_to_pcm lib audio_data) as [pcm|e].
  2:{ intros H. apply transcription_inj in H as (H & _).
      apply failure_inj in H. symmetry in H.
      contradiction (timed_out_not_failed e H). }
  destruct (run_forever pcm (reset svc) (events chan)) as [svc1 out1].
  destruct (run_raises chan) as [e|].
  { intros H. apply transcription_inj in H as (H & _).
    apply failure_inj in H. symmetry in H.
    contradiction (timed_out_not_failed e H). }
  destruct (wait clock (time clock 0%nat) svc1 1 fuel) as [[|]|] eqn:Hw;
    [| |discriminate].
  - apply wait_result in Hw as [Hc He].
    intros H. apply transcription_inj in H as (_ & <- & _). auto.
  - destruct (recognition_error svc1) as [[|x e]|]; [discriminate| |discriminate].
    intros H. apply transcription_inj in H as (H & _).
    apply failure_inj in H. symmetry in H.
    contradiction (timed_out_not_failed (x :: e) H).
Qed.

Lemma timeout_only_when_unset_witness :
  recognition_complete (reset configured) = false
  /\ truthy (recognition_error (reset configured)) = false
  /\ truthy (api_key configured) = true
  /\ truthy (api_secret configured) = true
  /\ truthy (app_id configured) = true.
Proof.
  eapply (timeout_only_when_unset passthrough silent_peer slow_clock 1
            configured [1; 2; 3]).
  vm_compute. reflexivity.
Defined.

Lemma lstrip_suffix s : exists k, lstrip s = drop k s.
Proof.
  induction s as [|c s [k IH]]; simpl.
  - exists 0%nat. reflexivity.
  - destruct (isspace c); [exists (S k); exact IH|exists 0%nat; reflexivity].
Qed.

Lemma lstrip_head s c s' : lstrip s = c :: s' -> isspace c = false.
Proof.
  induction s as [|d s IH]; simpl; [discriminate|].
  destruct (isspace d) eqn:E; [exact IH|].
  intros [= <- _]. exact E.
Qed.

(** [strip] leaves no white space at either end. *)
Lemma strip_ends s :
  (forall c t, strip s = c :: t -> isspace c = false)
  /\ (forall c t, strip s = t ++ [c] -> isspace c = false).
Proof.
  unfold strip. split; intros c t H.
  - destruct (lstrip_suffix (rev (lstrip s))) as [k Hk].
    rewrite Hk, skipn_rev, rev_involutive in H.
    destruct (lstrip s) as [|x l] eqn:E;
      [destruct (_ - _)%nat; discriminate|].
    destruct (length (x :: l) - k)%nat; [discriminate|].
    simpl in H. injection H as <- _. exact (lstrip_head s x l E).
  - apply (f_equal (@rev Z)) in H. rewrite rev_involutive, rev_app_distr in H.
    simpl in H. exact (lstrip_head _ _ _ H).
Qed.

(** X11.  The text of a success never begins or ends with white space. *)
Theorem success_text_is_stripped
    lib chan clock fuel svc audio_data t c d svc' out :
  transcribe_audio lib chan clock fuel svc audio_data
  = Some (Success t c d, svc', out) ->
  (forall x t', t = x :: t' -> isspace x = false)
  /\ (forall x t', t = t' ++ [x] -> isspace x = false).
Proof.
  unfold transcribe_audio.
  remember (round_binary64 (92 # 100)) as conf eqn:Hconf.
  remember (div_int (Z.of_nat (length audio_data)) 32000) as dur eqn:Hdur.
  destruct (negb (truthy (api_key svc)) || negb (truthy (api_secret svc))
            || negb (truthy (app_id svc))); [discriminate|].
  destruct (convert_audio_to_pcm lib audio_data) as [pcm|e]; [|discriminate].
  destruct (run_forever pcm (reset svc) (events chan)) as [svc1 out1].
  destruct (run_raises chan); [discriminate|].
  destruct (wait clock (time clock 0%nat) svc1 1 fuel) as [[|]|];
    [discriminate| |discriminate].
  destruct (recognition_error svc1) as [[|x e]|]; [|discriminate|];
    intros [= <- _ _ _ _]; apply strip_ends.
Qed.

Lemma success_text_is_stripped_witness :
  (forall x t', u "你好世界" = x :: t' -> isspace x = false)
  /\ (forall x t', u "你好世界" = t' ++ [x] -> isspace x = false).
Proof.
  eapply (success_text_is_stripped passthrough greeting_peer slow_clock 1
            configured [1; 2; 3]).
  vm_compute. reflexivity.
Defined.

End SessionProperties.

(** ** More on the audio helpers *)

Module AudioProperties.
Import VoiceRecognitionService AudioFileManager RecognitionClaims.

(** X12.  Validation looks at the length only: an input passes exactly when it
    has 44 bytes or more, whatever its first bytes are. *)
Theorem validate_iff_length audio_data :
  validate_audio_format audio_data = true
  <-> (44 <= length audio_data)%nat.
Proof.
  unfold validate_audio_format.
  destruct (length audio_data <? 44)%nat eqn:E.
  - apply Nat.ltb_lt in E. split; [discriminate|lia].
  - apply Nat.ltb_ge in E.
    destruct (_ && _); split; auto.
Qed.

Lemma try_formats_first lib before fmt after audio_data a :
  (forall f, f ∈ before -> from_file lib (Some f) audio_data = None) ->
  from_file lib (Some fmt) audio_data = Some a ->
  try_formats lib (before ++ fmt :: after) audio_data = Some a.
Proof.
  induction before as [|f before IH]; simpl; intros Hbefore Hfmt.
  - rewrite Hfmt. reflexivity.
  - rewrite (Hbefore f) by left. apply IH; [|exact Hfmt].
    intros g Hg. apply Hbefore. right. exact Hg.
Qed.

(** X13.  The decoders are tried in the order webm, wav, mp3, ogg, mp4 and the
    first that takes the input decides; the automatic detection is used
    only when all five refuse.  The PCM bytes of that decoding are the
    result, and an error raised on the way gets the conversion prefix. *)
Theorem decoder_priority lib audio_data a :
  PYDUB_AVAILABLE lib = true ->
  (exists before fmt after,
     formats_to_try = before ++ fmt :: after
     /\ (forall f, f ∈ before -> from_file lib (Some f) audio_data = None)
     /\ from_file lib (Some fmt) audio_data = Some a)
  \/ ((forall f, f ∈ formats_to_try ->
         from_file lib (Some f) audio_data = None)
      /\ from_file lib None audio_data = Some a) ->
  convert_audio_to_pcm lib audio_data
  = match raw_pcm lib a with
    | Ok pcm => Ok pcm
    | Raise e => Raise (u "音频格式转换失败: " ++ e)
    end.
Proof.
  intros Hlib H. unfold convert_audio_to_pcm. rewrite Hlib. cbn [negb].
  destruct H as [(before & fmt & after & -> & Hbefore & Hfmt)|[Hall Hauto]].
  - rewrite (try_formats_first lib before fmt after audio_data a Hbefore Hfmt).
    reflexivity.
  - rewrite (try_formats_none lib formats_to_try audio_data Hall), Hauto.
    reflexivity.
Qed.

Lemma decoder_priority_witness :
  convert_audio_to_pcm
    (Pydub (list Z) true
       (fun fmt data =>
          match fmt with
          | Some f => if bool_decide (f = u "mp3") then Some data else None
          | None => None
          end)
       (fun a => Ok (a ++ a)))
    [1; 2; 3]
  = Ok [1; 2; 3; 1; 2; 3].
Proof.
  apply (decoder_priority
           (Pydub (list Z) true
              (fun fmt data =>
                 match fmt with
                 | Some f => if bool_decide (f = u "mp3") then Some data
                             else None
                 | None => None
                 end)
              (fun a => Ok (a ++ a)))
           [1; 2; 3] [1; 2; 3]);
    [reflexivity|].
  left. exists [u "webm"; u "wav"], (u "mp3"), [u "ogg"; u "mp4"].
  split; [vm_compute; reflexivity|]. split; [|vm_compute; reflexivity].
  intros f Hf. apply elem_of_cons in Hf as [->|Hf];
    [vm_compute; reflexivity|].
  apply list_elem_of_singleton in Hf as ->. vm_compute. reflexivity.
Defined.

(** X14.  A conversion fails in one of two ways only: with the message that the
    library is missing, when it is, and otherwise with a message that
    begins with the conversion prefix. *)
Theorem conversion_errors lib audio_data e :
  convert_audio_to_pcm lib audio_data = Raise e ->
  (PYDUB_AVAILABLE lib = false /\ e = u "音频格式转换库未安装")
  \/ (PYDUB_AVAILABLE lib = true
      /\ exists cause, e = u "音频格式转换失败: " ++ cause).
Proof.
  unfold convert_audio_to_pcm.
  destruct (PYDUB_AVAILABLE lib); cbn [negb].
  - intros H. right. split; [reflexivity|].
    match type of H with
    | match ?r with _ => _ end = _ => destruct r as [pcm|cause]
    end; [discriminate|].
    exists cause. inversion H. reflexivity.
  - intros H. left. split; [reflexivity|]. inversion H. reflexivity.
Qed.

Lemma conversion_errors_witness :
  (PYDUB_AVAILABLE undecodable = false
   /\ unsupported_format = u "音频格式转换库未安装")
  \/ (PYDUB_AVAILABLE undecodable = true
      /\ exists cause, unsupported_format = u "音频格式转换失败: " ++ cause).
Proof.
  apply (conversion_errors undecodable [1; 2; 3]).
  vm_compute. reflexivity.
Defined.

End AudioProperties.

(** ** More on the rule-based processor *)

Module ProcessorProperties.
Import Re Float ReFacts FloatFacts VoiceCommandProcessor ProcessorFacts.

(** The five categories of an expense. *)
Lemma table_categories :
  Forall (fun kc =>
            snd kc ∈ map u ["entertainment"; "food"; "accommodation";
                            "transportation"; "shopping"]%string)
         categories.
Proof.
  apply Forall_forall. intros kc Hkc.
  apply (bool_decide_unpack _).
  revert kc Hkc. apply Forall_forall.
  apply (bool_decide_unpack _). vm_compute. reflexivity.
Qed.

Lemma first_category_in table t c :
  first_category table t = Some c ->
  exists kw, (kw, c) ∈ table /\ contains t kw = true.
Proof.
  induction table as [|[kw c'] table IH]; [discriminate|].
  rewrite first_category_cons. destruct (contains t kw) eqn:E.
  - intros [= <-]. exists kw. split; [left|exact E].
  - intros H. destruct (IH H) as (kw' & Hin & Hc).
    exists kw'. split; [right; exact Hin|exact Hc].
Qed.

Lemma category_of_amount_in a :
  category_of_amount a ∈ map u ["entertainment"; "food"; "accommodation";
                                "transportation"; "shopping"]%string.
Proof.
  unfold category_of_amount.
  destruct (gt a (of_Z 500)); [|destruct (gt a (of_Z 100))];
    apply (bool_decide_unpack _); vm_compute; reflexivity.
Qed.

(** The whole dictionary of the [add_expense] branch. *)
Lemma add_expense_dictionary t amount :
  extract_amount t = Ok amount ->
  extract_entities_rule_based t "add_expense"
  = Ok (set_opt "category"
          (VStr <$> match first_category categories t with
                    | Some c => Some c
                    | None => category_of_amount <$> amount
                    end)
          (set_opt "amount" (VFloat <$> amount) ∅)).
Proof.
  intros H. unfold extract_entities_rule_based.
  change (String.eqb "add_expense" "create_plan") with false.
  change (String.eqb "add_expense" "add_expense") with true.
  cbv iota. rewrite H. unfold bindr.
  destruct (first_category categories t) as [c|], amount as [x|];
    unfold set_opt; cbn [fmap option_fmap option_map];
    simplify_map_eq; reflexivity.
Qed.

Lemma Ok_inj {A} (a b : A) : Ok a = Ok b -> a = b.
Proof. intros H. inversion H. reflexivity. Qed.

Lemma set_opt_lookup k v (m : gmap string value) k' x :
  set_opt k v m !! k' = Some x -> k' = k \/ m !! k' = Some x.
Proof.
  destruct v as [y|]; simpl; [|auto].
  destruct (decide (k = k')) as [->|Hne]; [auto|].
  rewrite lookup_insert_ne by exact Hne. auto.
Qed.

(** X15.  Extraction for [add_expense] never raises (every captured amount is a
    numeral that [float] accepts), and the dictionary it returns has no
    key besides [amount] and [category]. *)
Theorem add_expense_never_raises t :
  exists entities,
    extract_entities_rule_based t "add_expense" = Ok entities
    /\ forall k v, entities !! k = Some v ->
         k = "amount"%string \/ k = "category"%string.
Proof.
  destruct (extract_amount_total t) as [amount Ha].
  eexists. split; [exact (add_expense_dictionary t amount Ha)|].
  intros k v H.
  apply set_opt_lookup in H as [->|H]; [right; reflexivity|].
  apply set_opt_lookup in H as [->|H]; [left; reflexivity|].
  rewrite lookup_empty in H. discriminate.
Qed.

(** X16.  Whenever an amount is extracted, a category is extracted with it, one
    of the five categories of an expense. *)
Theorem amount_comes_with_category t entities a :
  extract_entities_rule_based t "add_expense" = Ok entities ->
  entities !! "amount"%string = Some a ->
  exists c,
    entities !! "category"%string = Some (VStr c)
    /\ c ∈ map u ["entertainment"; "food"; "accommodation";
                  "transportation"; "shopping"]%string.
Proof.
  destruct (extract_amount_total t) as [amount Ha].
  rewrite (add_expense_dictionary t amount Ha).
  destruct (first_category categories t) as [c|] eqn:Hc;
    intros H; apply Ok_inj in H; subst entities.
  - intros _. exists c. split.
    + unfold set_opt. cbn [fmap option_fmap option_map].
      apply lookup_insert_eq.
    + apply first_category_in in Hc as (kw & Hin & _).
      pose proof table_categories as Hall.
      rewrite Forall_forall in Hall. exact (Hall _ Hin).
  - destruct amount as [x|]; unfold set_opt;
      cbn [fmap option_fmap option_map].
    + intros _. exists (category_of_amount x).
      split; [apply lookup_insert_eq|apply category_of_amount_in].
    + rewrite lookup_empty. discriminate.
Qed.

Lemma amount_comes_with_category_witness :
  exists c,
    ({[ "amount"%string := VFloat (of_Z 600);
        "category"%string := VStr (u "accommodation") ]}
       : gmap string value) !! "category"%string = Some (VStr c)
    /\ c ∈ map u ["entertainment"; "food"; "accommodation";
                  "transportation"; "shopping"]%string.
Proof.
  apply (amount_comes_with_category (u "一共600") _ (VFloat (of_Z 600)));
    vm_compute; reflexivity.
Defined.

Lemma first_category_app_hit l1 l2 t kw c :
  (kw, c) ∈ l1 -> contains t kw = true ->
  exists c', first_category (l1 ++ l2) t = Some c' /\ c' ∈ map snd l1.
Proof.
  induction l1 as [|[kw1 c1] l1 IH]; intros Hin Hc; [inversion Hin|].
  rewrite <- app_comm_cons, first_category_cons.
  destruct (contains t kw1) eqn:E.
  - exists c1. split; [reflexivity|left].
  - apply elem_of_cons in Hin as [Heq|Hin].
    + injection Heq as -> ->. congruence.
    + destruct (IH Hin Hc) as (c' & H1 & H2).
      exists c'. split; [exact H1|right; exact H2].
Qed.

(** X17.  The keywords of entertainment come first: a description that holds
    one of them is an entertainment expense, whatever else it holds. *)
Theorem entertainment_comes_first t kw :
  kw ∈ map u ["门票"; "景点"; "游乐"; "玩"; "博物馆"; "公园"; "演出";
              "电影"]%string ->
  contains t kw = true ->
  exists entities,
    extract_entities_rule_based t "add_expense" = Ok entities
    /\ entities !! "category"%string = Some (VStr (u "entertainment")).
Proof.
  intros Hkw Hc.
  destruct (extract_amount_total t) as [amount Ha].
  eexists. split; [exact (add_expense_dictionary t amount Ha)|].
  assert (Hin : (kw, u "entertainment") ∈ take 8 categories).
  { clear Hc. revert kw Hkw. apply Forall_forall.
    apply (bool_decide_unpack _). vm_compute. reflexivity. }
  destruct (first_category_app_hit (take 8 categories) (drop 8 categories)
              t kw _ Hin Hc) as (c' & Hfirst & Hc').
  rewrite take_drop in Hfirst. rewrite Hfirst.
  assert (Hent : c' = u "entertainment").
  { clear Hfirst. revert c' Hc'. apply Forall_forall.
    apply (bool_decide_unpack _). vm_compute. reflexivity. }
  subst c'. unfold set_opt at 1. cbn [fmap option_fmap option_map].
  apply lookup_insert_eq.
Qed.

Lemma entertainment_comes_first_witness :
  exists entities,
    extract_entities_rule_based (u "买了电影票和爆米花") "add_expense"
    = Ok entities
    /\ entities !! "category"%string = Some (VStr (u "entertainment")).
Proof.
  apply (entertainment_comes_first (u "买了电影票和爆米花") (u "电影"));
    [|reflexivity].
  apply (bool_decide_unpack _). vm_compute. reflexivity.
Defined.

Lemma max_from_in {A} (gtb : A -> A -> bool) l : forall best,
  max_from gtb best l ∈ best :: l.
Proof.
  induction l as [|x l IH]; simpl; intros best; [left|].
  specialize (IH (if gtb x best then x else best)).
  apply elem_of_cons in IH as [->|IH].
  - destruct (gtb x best); [right; left|left].
  - right; right; exact IH.
Qed.

(** [max(intent_scores, key=intent_scores.get)] has a greatest score. *)
Lemma max_from_greatest (l : list (string * Z)) : forall best x,
  x ∈ best :: l ->
  snd x <= snd (max_from (fun a b => snd b <? snd a) best l).
Proof.
  induction l as [|y l IH]; simpl; intros best x Hx.
  - apply list_elem_of_singleton in Hx as ->. lia.
  - destruct (snd best <? snd y) eqn:E.
    + apply Z.ltb_lt in E.
      apply elem_of_cons in Hx as [->|Hx]; [|exact (IH y x Hx)].
      pose proof (IH y y ltac:(left)). lia.
    + apply Z.ltb_ge in E.
      apply elem_of_cons in Hx as [->|Hx]; [apply IH; left|].
      apply elem_of_cons in Hx as [->|Hx].
      * pose proof (IH best best ltac:(left)). lia.
      * apply IH. right. exact Hx.
Qed.

Lemma dict_set_elem {V} (d : list (string * V)) k v : (k, v) ∈ dict_set d k v.
Proof.
  induction d as [|[k' v'] d IH]; simpl; [left|].
  destruct (String.eqb k' k); [left|right; exact IH].
Qed.

Lemma dict_set_other {V} (d : list (string * V)) k v k' v' :
  (k', v') ∈ d -> k' <> k -> (k', v') ∈ dict_set d k v.
Proof.
  induction d as [|[k1 v1] d IH]; simpl; intros Hin Hne; [inversion Hin|].
  apply elem_of_cons in Hin as [Heq|Hin].
  - injection Heq as <- <-.
    destruct (String.eqb k' k) eqn:E; [|left].
    apply String.eqb_eq in E. contradiction.
  - destruct (String.eqb k1 k); right; auto.
Qed.

Lemma dict_set_keys {V} (d : list (string * V)) k v kv :
  kv ∈ dict_set d k v -> fst kv = k \/ kv ∈ d.
Proof.
  induction d as [|[k1 v1] d IH]; simpl; intros Hin.
  - apply list_elem_of_singleton in Hin as ->. left. reflexivity.
  - destruct (String.eqb k1 k).
    + apply elem_of_cons in Hin as [->|Hin]; [left; reflexivity|].
      right; right; exact Hin.
    + apply elem_of_cons in Hin as [->|Hin]; [right; left|].
      destruct (IH Hin) as [H|H]; [left; exact H|right; right; exact H].
Qed.

Lemma dict_get_set {V} (d : list (string * V)) k v dflt :
  dict_get (dict_set d k v) k dflt = v.
Proof.
  induction d as [|[k1 v1] d IH]; simpl.
  - rewrite String.eqb_refl. reflexivity.
  - destruct (String.eqb k1 k) eqn:E; simpl.
    + rewrite String.eqb_refl. reflexivity.
    + rewrite E. exact IH.
Qed.

Lemma dict_get_set_other {V} (d : list (string * V)) k v k' dflt :
  k' <> k -> dict_get (dict_set d k v) k' dflt = dict_get d k' dflt.
Proof.
  intros Hne. induction d as [|[k1 v1] d IH]; simpl.
  - destruct (String.eqb k k') eqn:E; [|reflexivity].
    apply String.eqb_eq in E. congruence.
  - destruct (String.eqb k1 k) eqn:E; simpl.
    + apply String.eqb_eq in E as ->.
      destruct (String.eqb k k') eqn:E'; [|reflexivity].
      apply String.eqb_eq in E'. congruence.
    + destruct (String.eqb k1 k'); [reflexivity|exact IH].
Qed.

(** After the keyword loop, an intent with a keyword in the text has its
    number of hits as score (the intents of the table being distinct). *)
Lemma score_keywords_get t table : forall scores intent keywords,
  NoDup (map fst table) ->
  (intent, keywords) ∈ table ->
  0 < keyword_hits t keywords ->
  dict_get (score_keywords t table scores) intent 0
  = keyword_hits t keywords.
Proof.
  induction table as [|[k kws] table IH]; simpl;
    intros scores intent keywords Hnd Hin Hpos; [inversion Hin|].
  apply NoDup_cons in Hnd as [Hk Hnd].
  apply elem_of_cons in Hin as [Heq|Hin].
  - injection Heq as -> ->.
    apply Z.ltb_lt in Hpos. rewrite Hpos.
    clear IH Hpos. revert scores.
    assert (Hother : forall scores,
              dict_get (score_keywords t table scores) k 0
              = dict_get scores k 0).
    { clear Hnd. induction table as [|[k2 kws2] table IH2]; simpl;
        intros scores; [reflexivity|].
      rewrite IH2.
      - destruct (0 <? keyword_hits t kws2); [|reflexivity].
        apply dict_get_set_other. intros ->. apply Hk. left.
      - intros H. apply Hk. right. exact H. }
    intros scores. rewrite Hother. apply dict_get_set.
  - apply IH; assumption.
Qed.

Lemma score_keywords_keys t table : forall scores kv,
  kv ∈ score_keywords t table scores ->
  fst kv ∈ map fst table \/ kv ∈ scores.
Proof.
  induction table as [|[k kws] table IH]; simpl; intros scores kv Hin;
    [right; exact Hin|].
  apply IH in Hin as [Hin|Hin]; [left; right; exact Hin|].
  destruct (0 <? keyword_hits t kws); [|right; exact Hin].
  apply dict_set_keys in Hin as [->|Hin]; [left; left|right; exact Hin].
Qed.

Lemma intent_scores_keys t kv :
  kv ∈ intent_scores_of t ->
  fst kv ∈ ["create_plan"; "modify_plan"; "add_expense"; "query_plan";
            "general"]%string.
Proof.
  unfold intent_scores_of. intros Hin.
  assert (Hloop : forall kv,
            kv ∈ score_keywords (lower t) intent_keywords [] ->
            fst kv ∈ ["create_plan"; "modify_plan"; "add_expense";
                      "query_plan"; "general"]%string).
  { intros kv' H. apply score_keywords_keys in H as [H|H]; [|inversion H].
    exact H. }
  destruct (any_in (lower t) classifier_destinations
            && any_in (lower t) travel_words);
    [apply dict_set_keys in Hin as [->|Hin]; [do 0 right; left|]|];
    (destruct (matched (search money_pattern (lower t)));
       [apply dict_set_keys in Hin as [->|Hin];
          [right; right; left|]|]);
    apply Hloop; exact Hin.
Qed.

(** X18.  The classifier answers with one of the five intents it knows. *)
Theorem classifier_labels t :
  classify_intent_rule_based t
  ∈ ["create_plan"; "modify_plan"; "add_expense"; "query_plan";
     "general"]%string.
Proof.
  unfold classify_intent_rule_based.
  destruct (intent_scores_of t) as [|first rest] eqn:E.
  - do 4 right. left.
  - apply (intent_scores_keys t). rewrite E. apply max_from_in.
Qed.

Lemma startswith_app p b : startswith (p ++ b) p = true.
Proof.
  induction p as [|c p IH]; simpl; [destruct b; reflexivity|].
  rewrite Z.eqb_refl. exact IH.
Qed.

Lemma contains_unfold s p :
  contains s p
  = startswith s p
    || match s with [] => false | _ :: s' => contains s' p end.
Proof. destruct s; reflexivity. Qed.

Lemma contains_middle a p b : contains (a ++ p ++ b) p = true.
Proof.
  induction a as [|c a IH].
  - simpl app. rewrite contains_unfold, startswith_app. reflexivity.
  - simpl. rewrite IH. apply orb_true_r.
Qed.

Lemma search_suffix r s m :
  search r s = Some m -> exists s1 s2, s = s1 ++ s2 /\ match_at r s2 = Some m.
Proof.
  induction s as [|c s IH]; simpl.
  - destruct (match_at r []) eqn:E; [|discriminate].
    intros [= <-]. exists [], []. auto.
  - destruct (match_at r (c :: s)) eqn:E.
    + intros [= <-]. exists [], (c :: s). auto.
    + intros H. destruct (IH H) as (s1 & s2 & -> & Hm).
      exists (c :: s1), s2. auto.
Qed.

(** A text with a match of [\d+.*元] holds the character 元. *)
Lemma money_pattern_currency s :
  matched (search money_pattern s) = true -> contains s (u "元") = true.
Proof.
  destruct (search money_pattern s) as [m|] eqn:E; [intros _|discriminate].
  apply search_suffix in E as (s1 & s2 & -> & Hm).
  apply match_at_sound in Hm as (w & s3 & g' & -> & Hm & _).
  unfold money_pattern in Hm.
  change (word (u "元")) with (Seq (Lit 0x5143) Eps) in Hm.
  repeat invert_match.
  change (u "元") with [0x5143].
  match goal with
  | |- contains (s1 ++ (?w1 ++ ?w2 ++ [_] ++ []) ++ s3) _ = true =>
    replace (s1 ++ (w1 ++ w2 ++ [0x5143] ++ []) ++ s3)
      with ((s1 ++ w1 ++ w2) ++ [0x5143] ++ s3)
      by (rewrite app_nil_r, <- !app_assoc; reflexivity)
  end.
  apply contains_middle.
Qed.

Lemma keyword_hits_positive t keywords kw :
  kw ∈ keywords -> contains t kw = true -> 0 < keyword_hits t keywords.
Proof.
  intros Hin Hc. unfold keyword_hits.
  assert (H : kw ∈ filter (fun kw => contains t kw = true) keywords)
    by (apply list_elem_of_filter; auto).
  destruct (filter _ keywords); [inversion H|simpl; lia].
Qed.

(** X19.  A text in which an amount in 元 is found ([\d+.*元]) scores at least 4
    for [add_expense], so it is classified [add_expense] unless some other
    intent scores 4 or more. *)
Theorem currency_amount_wins t :
  matched (search money_pattern (lower t)) = true ->
  (forall k v, (k, v) ∈ intent_scores_of t ->
     k <> "add_expense"%string -> v < 4) ->
  classify_intent_rule_based t = "add_expense"%string.
Proof.
  intros Hmoney Hothers.
  assert (Hentry : exists v, 4 <= v
                     /\ ("add_expense"%string, v) ∈ intent_scores_of t).
  { unfold intent_scores_of. rewrite Hmoney.
    exists (dict_get (score_keywords (lower t) intent_keywords [])
                     "add_expense" 0 + 3).
    split.
    - rewrite (score_keywords_get (lower t) intent_keywords []
                 "add_expense"
                 (map u ["花费"; "费用"; "开销"; "支出"; "消费"; "买"; "付";
                         "花了"; "元"]%string)).
      + pose proof (keyword_hits_positive (lower t)
                      (map u ["花费"; "费用"; "开销"; "支出"; "消费"; "买";
                              "付"; "花了"; "元"]%string) (u "元")) as Hpos.
        cut (0 < keyword_hits (lower t)
                   (map u ["花费"; "费用"; "开销"; "支出"; "消费"; "买";
                           "付"; "花了"; "元"]%string)); [lia|].
        apply Hpos; [|apply money_pattern_currency, Hmoney].
        do 8 right. left.
      + apply (bool_decide_unpack _). vm_compute. reflexivity.
      + do 2 right. left.
      + apply (keyword_hits_positive _ _ (u "元"));
          [do 8 right; left|apply money_pattern_currency, Hmoney].
    - destruct (any_in (lower t) classifier_destinations
                && any_in (lower t) travel_words).
      + apply dict_set_other; [apply dict_set_elem|discriminate].
      + apply dict_set_elem. }
  destruct Hentry as (v & Hv & Hin).
  unfold classify_intent_rule_based.
  destruct (intent_scores_of t) as [|first rest] eqn:E; [inversion Hin|].
  pose proof (max_from_greatest rest first _ Hin) as Hmax.
  pose proof (max_from_in (fun a b => snd b <? snd a) rest first) as Hmem.
  destruct (max_from (fun a b => snd b <? snd a) first rest) as [k w].
  simpl in *.
  destruct (String.eqb_spec k "add_expense") as [->|Hne]; [reflexivity|].
  specialize (Hothers k w Hmem Hne). lia.
Qed.

Lemma currency_amount_wins_witness :
  classify_intent_rule_based plan_utterance = "add_expense"%string.
Proof.
  apply (currency_amount_wins plan_utterance); [vm_compute; reflexivity|].
  intros k v Hin Hne.
  change (intent_scores_of plan_utterance)
    with [("create_plan"%string, 3); ("add_expense"%string, 4)] in Hin.
  apply elem_of_cons in Hin as [[= -> ->]|Hin]; [lia|].
  apply list_elem_of_singleton in Hin as [= -> ->]. contradiction.
Defined.

End ProcessorProperties.

(** ** The pipeline of the voice service *)

Module PipelineProperties.
Import Float VoiceCommandProcessor VoiceRecognitionService VoiceService.
Import ProcessorFacts ProcessorProperties SessionProperties.

Lemma lstrip_spaces s :
  Forall (fun c => isspace c = true) s -> lstrip s = [].
Proof.
  induction 1 as [|c s Hc Hs IH]; simpl; [reflexivity|].
  rewrite Hc. exact IH.
Qed.

Lemma strip_spaces s : Forall (fun c => isspace c = true) s -> strip s = [].
Proof. intros H. unfold strip. rewrite (lstrip_spaces s H). reflexivity. Qed.

(** X20.  Without credentials the whole pipeline fails with the not-configured
    error and touches nothing: the decoder, the channel, the clock and the
    language model have no part in the result. *)
Theorem pipeline_needs_credentials {J} (float_str : pyfloat -> text)
    (analyze : text -> option (llm_reply J))
    lib chan clock fuel svc audio_data :
  truthy (app_id svc) = false
  \/ truthy (api_key svc) = false
  \/ truthy (api_secret svc) = false ->
  process_voice_command float_str analyze lib chan clock fuel svc audio_data
  = Some (Ok (VoiceResult false (Some not_configured) []
                (PStr (u "unknown")) (PEntities ∅) (PStr [])
                (PFloat (round_binary64 0))),
          svc, []).
Proof.
  intros H. unfold process_voice_command, transcribe_audio.
  destruct (truthy (api_key svc)), (truthy (api_secret svc)),
    (truthy (app_id svc)); cbn [negb orb]; try reflexivity.
  destruct H as [H|[H|H]]; discriminate.
Qed.

Lemma pipeline_needs_credentials_witness :
  process_voice_command (J := unit) (fun _ => []) (fun _ => None)
    passthrough greeting_peer slow_clock 0 unconfigured [1; 2; 3]
  = Some (Ok (VoiceResult false (Some not_configured) []
                (PStr (u "unknown")) (PEntities ∅) (PStr [])
                (PFloat (round_binary64 0))),
          unconfigured, []).
Proof.
  apply (pipeline_needs_credentials (J := unit)).
  right; left; reflexivity.
Defined.

(** X21.  A recognition that completes with nothing but white space is a
    success of the pipeline: the transcript is empty, the intent is
    [unknown] with confidence 0 and the apology as response, and the
    language model is not asked. *)
Theorem silence_is_an_unknown_command {J} (float_str : pyfloat -> text)
    (analyze : text -> option (llm_reply J))
    lib chan clock fuel svc audio_data pcm svc' out :
  truthy (api_key svc) = true ->
  truthy (api_secret svc) = true ->
  truthy (app_id svc) = true ->
  convert_audio_to_pcm lib audio_data = Ok pcm ->
  run_forever pcm (reset svc) (events chan) = (svc', out) ->
  run_raises chan = None ->
  recognition_complete svc' = true ->
  truthy (recognition_error svc') = false ->
  Forall (fun c => isspace c = true) (recognition_result svc') ->
  (0 < fuel)%nat ->
  process_voice_command float_str analyze lib chan clock fuel svc audio_data
  = Some (Ok (VoiceResult true None []
                (PStr (u "unknown")) (PEntities ∅)
                (PStr (u "抱歉，我没有听清楚您说的话。"))
                (PFloat (round_binary64 0))),
          svc', [Converted; UrlCreated; Connected] ++ out).
Proof.
  intros Hk Hs Ha Hconv Hrun Hraise Hc He Hspace Hfuel.
  unfold process_voice_command, transcribe_audio.
  rewrite Hk, Hs, Ha, Hconv. cbn [negb orb]. rewrite Hrun, Hraise.
  rewrite (wait_terminal clock (time clock 0%nat) svc' 1 fuel Hfuel)
    by (left; exact Hc).
  rewrite (strip_spaces _ Hspace).
  destruct (recognition_error svc') as [[|x e]|]; try discriminate He;
    reflexivity.
Qed.

Lemma silence_is_an_unknown_command_witness :
  process_voice_command (J := unit) (fun _ => [])
    (fun _ => Some (Reply (Some tt) None None None))
    passthrough
    (Channel [Opened; Received (Envelope 0 2 (Words [[u "  "]]))] None)
    slow_clock 1 configured [1; 2; 3]
  = Some (Ok (VoiceResult true None []
                (PStr (u "unknown")) (PEntities ∅)
                (PStr (u "抱歉，我没有听清楚您说的话。"))
                (PFloat (round_binary64 0))),
          Service (Some (u "5f8a2c1d")) (Some (u "key")) (Some (u "secret"))
                  (u "  ") true None,
          [Converted; UrlCreated; Connected]
            ++ [Sent (Frame 0 [1; 2; 3]); Sent (Frame 2 [1; 2; 3]);
                CloseRequested]).
Proof.
  apply (silence_is_an_unknown_command (J := unit) (fun _ => [])
           (fun _ => Some (Reply (Some tt) None None None))
           passthrough
           (Channel [Opened; Received (Envelope 0 2 (Words [[u "  "]]))]
                    None)
           slow_clock 1 configured [1; 2; 3] [1; 2; 3]);
    first [ vm_compute; reflexivity | lia | idtac ].
  repeat constructor.
Defined.

(** X22.  When the language model gives nothing for a transcript that is not
    empty, the result is the rule-based one: confidence 0.75 and one of
    the five intents, never [unknown]. *)
Theorem fallback_result {J} (float_str : pyfloat -> text)
    (analyze : text -> option (llm_reply J)) transcription c :
  transcription <> [] ->
  analyze transcription = None ->
  process_command float_str analyze transcription = Ok c ->
  cd_confidence c = PFloat (round_binary64 (75 # 100))
  /\ exists label,
       label ∈ ["create_plan"; "modify_plan"; "add_expense"; "query_plan";
                "general"]%string
       /\ cd_intent c = PStr (bytes_of_string label).
Proof.
  intros Hne Hnone. unfold process_command.
  destruct transcription as [|x t]; [contradiction|]. rewrite Hnone.
  unfold fallback_with_response, fallback_rule_based_processing.
  destruct (extract_entities_rule_based (x :: t)
              (classify_intent_rule_based (x :: t))) as [ents|e];
    [|discriminate].
  simpl. intros H. apply Ok_inj in H. subst c. simpl.
  split; [reflexivity|].
  exists (classify_intent_rule_based (x :: t)). split; [|reflexivity].
  unfold classify_intent_rule_based.
  destruct (intent_scores_of (x :: t)) as [|first rest] eqn:E.
  - do 4 right. left.
  - apply (intent_scores_keys (x :: t)). rewrite E. apply max_from_in.
Qed.

Lemma fallback_result_witness :
  PFloat (J := unit) (round_binary64 (75 # 100))
  = PFloat (round_binary64 (75 # 100))
  /\ exists label,
       label ∈ ["create_plan"; "modify_plan"; "add_expense"; "query_plan";
                "general"]%string
       /\ PStr (J := unit) (bytes_of_string "add_expense")
          = PStr (bytes_of_string label).
Proof.
  apply (fallback_result (J := unit) (fun _ => []) (fun _ => None)
           expense_utterance
           (CommandDict (PStr (bytes_of_string "add_expense"))
              (PFloat (round_binary64 (75 # 100)))
              (PEntities {[ "amount"%string := VFloat (of_Z 60);
                            "category"%string := VStr (u "food") ]})
              (PStr (u "已记录food支出元。"))));
    [vm_compute; discriminate | reflexivity | vm_compute; reflexivity].
Defined.

End PipelineProperties.

(** ** The two classifications of an expense *)

Module ExpenseProperties.
Import Float VoiceCommandProcessor ExpenseTracker.
Import ProcessorFacts ProcessorProperties.

Lemma startswith_lower p : forall s,
  Forall (fun c => (c <? 0x41) || (0x7A <? c)
                   || ((0x5A <? c) && (c <? 0x61)) = true) p ->
  startswith (lower s) p = startswith s p.
Proof.
  induction p as [|c p IH]; intros s Hp.
  - destruct s; reflexivity.
  - apply Forall_cons in Hp as [Hc Hp].
    destruct s as [|d s]; [reflexivity|]. simpl.
    fold (lower s). rewrite (IH s Hp). f_equal.
    unfold lower_char.
    destruct ((0x41 <=? d) && (d <=? 0x5A)) eqn:E; [|reflexivity].
    apply andb_true_iff in E as [E1 E2].
    apply Z.leb_le in E1, E2.
    assert (c <> d /\ c <> d + 32) as [H1 H2].
    { apply orb_true_iff in Hc as [Hc|Hc];
        [apply orb_true_iff in Hc as [Hc|Hc]|apply andb_true_iff in Hc as [Hc Hc']];
        repeat match goal with
               | H : (_ <? _) = true |- _ => apply Z.ltb_lt in H
               end; lia. }
    apply Z.eqb_neq in H1, H2. rewrite H1, H2. reflexivity.
Qed.

(** Lowering the text does not change whether a word without ASCII
    letters occurs in it. *)
Lemma contains_lower p s :
  Forall (fun c => (c <? 0x41) || (0x7A <? c)
                   || ((0x5A <? c) && (c <? 0x61)) = true) p ->
  contains (lower s) p = contains s p.
Proof.
  intros Hp. induction s as [|d s IH].
  - change (lower []) with (@nil Z). reflexivity.
  - change (lower (d :: s)) with (lower_char d :: lower s).
    rewrite (contains_unfold (d :: s)), (contains_unfold (_ :: lower s)).
    rewrite IH.
    change (lower_char d :: lower s) with (lower (d :: s)).
    rewrite (startswith_lower p (d :: s) Hp). reflexivity.
Qed.

Lemma startswith_split s : forall p,
  startswith s p = true -> exists y, s = p ++ y.
Proof.
  induction s as [|d s IH]; intros [|c p]; simpl; intros H;
    try discriminate; [exists []| exists (d :: s)|]; try reflexivity.
  apply andb_true_iff in H as [Hc Hp]. apply Z.eqb_eq in Hc as ->.
  destruct (IH p Hp) as [y ->]. exists y. reflexivity.
Qed.

Lemma contains_split s p :
  contains s p = true -> exists x y, s = x ++ p ++ y.
Proof.
  induction s as [|d s IH]; rewrite contains_unfold; intros H.
  - rewrite orb_false_r in H. apply startswith_split in H as [y ->].
    exists [], y. reflexivity.
  - apply orb_true_iff in H as [H|H].
    + apply startswith_split in H as [y ->]. exists [], y. reflexivity.
    + destruct (IH H) as (x & y & ->). exists (d :: x), y. reflexivity.
Qed.

(** A text that holds a word holds every end of it. *)
Lemma contains_suffix s a b :
  contains s (a ++ b) = true -> contains s b = true.
Proof.
  intros H. apply contains_split in H as (x & y & ->).
  replace (x ++ (a ++ b) ++ y) with ((x ++ a) ++ b ++ y)
    by (rewrite <- !app_assoc; reflexivity).
  apply contains_middle.
Qed.

(** X23.  For a description that names an entrance ticket (门票) the two
    classifications never agree: the entity extractor of the voice
    commands says entertainment, and [categorize_expense] says
    transportation, or food when a food keyword occurs too, because its
    table has the row of 票 before the row of 门票. *)
Theorem ticket_classified_two_ways description amount :
  contains description (u "门票") = true ->
  (categorize_expense description amount = u "food"
   \/ categorize_expense description amount = u "transportation")
  /\ exists entities,
       extract_entities_rule_based description "add_expense" = Ok entities
       /\ entities !! "category"%string = Some (VStr (u "entertainment")).
Proof.
  intros Hticket. split.
  - assert (Hpiao : contains (lower description) (u "票") = true).
    { rewrite contains_lower by (vm_compute; repeat constructor).
      apply (contains_suffix description (u "门") (u "票")). exact Hticket. }
    unfold categorize_expense.
    change category_keywords
      with ((u "food", snd (hd ([], []) category_keywords))
              :: (u "transportation",
                  snd (hd ([], []) (tail category_keywords)))
              :: tail (tail category_keywords)).
    cbn [keyword_category].
    destruct (existsb _ (snd (hd ([], []) category_keywords)));
      [left; reflexivity|].
    replace (existsb (contains (lower description))
               (snd (hd ([], []) (tail category_keywords)))) with true;
      [right; reflexivity|].
    symmetry. apply existsb_exists. exists (u "票").
    split; [|exact Hpiao]. vm_compute. tauto.
  - destruct (extract_amount_total description) as [a Ha].
    eexists. split; [exact (add_expense_dictionary description a Ha)|].
    assert (Hin : (u "门票", u "entertainment") ∈ take 8 categories)
      by (apply (bool_decide_unpack _); vm_compute; reflexivity).
    destruct (first_category_app_hit (take 8 categories)
                (drop 8 categories) description _ _ Hin Hticket)
      as (c' & Hfirst & Hc').
    rewrite take_drop in Hfirst. rewrite Hfirst.
    assert (Hent : c' = u "entertainment").
    { clear Hfirst. revert c' Hc'. apply Forall_forall.
      apply (bool_decide_unpack _). vm_compute. reflexivity. }
    subst c'. unfold set_opt at 1. cbn [fmap option_fmap option_map].
    apply lookup_insert_eq.
Qed.

Lemma ticket_classified_two_ways_witness :
  (categorize_expense (u "故宫门票") 60 = u "food"
   \/ categorize_expense (u "故宫门票") 60 = u "transportation")
  /\ exists entities,
       extract_entities_rule_based (u "故宫门票") "add_expense"
       = Ok entities
       /\ entities !! "category"%string = Some (VStr (u "entertainment")).
Proof.
  apply (ticket_classified_two_ways (u "故宫门票") 60). reflexivity.
Defined.

Lemma keyword_category_in table d c :
  keyword_category table d = Some c -> c ∈ map fst table.
Proof.
  induction table as [|[c' kws] table IH]; simpl; [discriminate|].
  destruct (existsb (contains d) kws).
  - intros [= <-]. left.
  - intros H. right. exact (IH H).
Qed.

(** X24.  [categorize_expense] answers with one of the five categories, for
    every description and amount. *)
Theorem categorize_expense_range description amount :
  categorize_expense description amount
  ∈ map u ["food"; "transportation"; "accommodation"; "entertainment";
           "shopping"]%string.
Proof.
  unfold categorize_expense.
  destruct (keyword_category category_keywords (lower description))
    as [c|] eqn:E.
  - apply keyword_category_in in E.
    revert c E. apply Forall_forall.
    apply (bool_decide_unpack _). vm_compute. reflexivity.
  - destruct (negb (Qle_bool amount 500));
      [|destruct (negb (Qle_bool amount 100))];
      apply (bool_decide_unpack _); vm_compute; reflexivity.
Qed.

End ExpenseProperties.

(** ** Instances of the properties of the frame loop *)

Module FrameInstances.
Import VoiceRecognitionService.

Lemma final_frame_repeats_last_chunk_witness :
  (0 < length [7; 8; 9])%nat
  /\ exists body final,
       send_frames [7; 8; 9] = body ++ [final]
       /\ status final = STATUS_LAST_FRAME
       /\ last (map audio body) = Some (audio final)
       /\ audio final
          = drop ((length [7; 8; 9] - 1) / frame_size * frame_size)
                 [7; 8; 9].
Proof.
  split; [simpl; lia|].
  apply (RecognitionClaims.final_frame_repeats_last_chunk [7; 8; 9]).
  simpl; lia.
Defined.

Lemma frame_payload_bounds_witness :
  Frame 2 [7; 8; 9] ∈ send_frames [7; 8; 9]
  /\ (0 < length (audio (Frame 2 [7; 8; 9]%Z)) <= frame_size)%nat.
Proof.
  assert (H : Frame 2 [7; 8; 9] ∈ send_frames [7; 8; 9]).
  { replace (send_frames [7; 8; 9])
      with [Frame 0 [7; 8; 9]; Frame 2 [7; 8; 9]]
      by (vm_compute; reflexivity).
    right; left. }
  split; [exact H|].
  exact (FrameProperties.frame_payload_bounds [7; 8; 9] _ H).
Defined.

End FrameInstances.
